(* ===================================================================== *)
(* Ohrenbaer podcast tools: the catalog merge of the scraper and the     *)
(* download / convert pipeline of the downloader, embedded in Rocq.      *)
(* ===================================================================== *)

From Stdlib Require Import ZArith NArith List String Ascii Bool Lia.
From stdpp Require Import base decidable countable list gmap sets.

Import ListNotations.
Local Open Scope N_scope.

(* --------------------------------------------------------------------- *)
(* JavaScript strings                                                     *)
(* --------------------------------------------------------------------- *)

(** A JavaScript string is a sequence of UTF-16 code units; regular
    expressions without the [u] flag work on code units. *)
Definition jsstring : Type := list N.

Fixpoint js (s : string) : jsstring :=
  match s with
  | EmptyString => []
  | String c r => N_of_ascii c :: js r
  end.

(** interface Podcast. The downloader declares the first three fields only;
    both tools read and write the same JSON objects. *)
Record Podcast := mkPodcast {
  title : jsstring;
  releaseDate : jsstring;
  downloadLink : jsstring;
  description : jsstring
}.

(* --------------------------------------------------------------------- *)
(* The runtime: file system, console, network, subprocesses               *)
(* --------------------------------------------------------------------- *)

Module Node.

(** Values thrown by the runtime or by the tools. *)
Inductive error :=
| ENOENT (path : jsstring)                       (* readFile rejects *)
| SyntaxError                                    (* JSON.parse / new RegExp *)
| ExecFailed (command : jsstring)                (* execSync / execFileSync *)
| FetchFailed (url : jsstring)                   (* fetch rejects *)
| FailedToDownload (url statusText : jsstring)   (* `Failed to download ...` *)
| NoResponseBody (url : jsstring)                (* `No response body from ...` *)
| StreamFailed (path : jsstring)                 (* pipeline rejects *)
| MkdirFailed (path : jsstring)
| WriteFailed (path : jsstring)
| ConcurrencyTypeError                           (* pLimit rejects its argument *)
| TitleTypeError.                                (* a title that is no string is read *)

(** Status labels handed to [progressBar.tick]. *)
Inductive status := downloaded | skipped | converted.

(** Lines written with console.log / console.error. *)
Inductive message :=
| WouldDownload (url outputPath : jsstring)
| WouldConvert (inputPath outputPath : jsstring)
| FfmpegNotInstalled
| FilteredTo (n : nat) (pattern : jsstring)
| NoPodcastsToDownload
| FailedToDownloadTitle (title : jsstring) (e : error)
| DownloadsComplete
| ErrorMsg (e : error)
| ErrorReadingExisting (e : error)
| FoundExisting (n : nat)
| FoundNew (n : nat)
| NoNewFound
| SuccessfullySaved (n : nat) (path : jsstring)
| FailedToSave (e : error).

(** Observable actions, oldest first in a trace. *)
Inductive event :=
| Access (path : jsstring)                 (* access / existsSync *)
| ReadFile (path : jsstring)
| WriteFile (path : jsstring)              (* writeFile / createWriteStream *)
| Mkdir (path : jsstring)
| Fetch (url : jsstring)
| ExecSync (command : jsstring)
| ExecFileSync (file : jsstring) (args : list jsstring)
| ConsoleLog (m : message)
| ConsoleError (m : message)
| Tick (file : jsstring) (s : status).

(** The files on disk with their contents, and what has been observed. *)
Record world := mkWorld {
  files : gmap (list N) (list N);
  trace : list event
}.

(** A response body: the bytes, and where the stream breaks if it does. *)
Record body := mkBody {
  data : jsstring;
  breaks_at : option nat
}.

Record response := mkResponse {
  ok : bool;
  statusText : jsstring;
  resp_body : option body
}.

(** The collaborators outside the two tools.

    [json_parse] reads a catalog text: [None] when JSON.parse throws,
    [Some l] when the text is an array of objects, taken as the records
    [l]. The cast to Podcast[] checks nothing, so [untitled] says which of
    these records have no string as their title (for them the field
    [title] stands for nothing). A text that parses to something that is
    no array of objects is not covered.

    [scraped] is what the browser session yields once the browser has
    started; a browser that cannot start is not covered.

    [ffmpeg] is the encoder as a subprocess: whether it exits with status
    zero, and the files it leaves, on success or failure. *)
Record env := mkEnv {
  json_parse : jsstring -> option (list Podcast);   (* JSON.parse *)
  json_stringify : list Podcast -> jsstring;        (* JSON.stringify(_, null, 2) *)
  path_resolve : jsstring -> jsstring;              (* path.resolve *)
  path_join : jsstring -> jsstring -> jsstring;     (* path.join *)
  regexp_i : jsstring -> option (jsstring -> bool); (* new RegExp(_, 'i').test *)
  http : jsstring -> option response;               (* fetch; None: rejected *)
  writable : jsstring -> bool;                      (* can the path be opened for writing *)
  ffmpeg_installed : bool;
  ffmpeg : gmap (list N) (list N) -> list jsstring -> bool * gmap (list N) (list N);
  scraped : list Podcast;
  untitled : Podcast -> bool
}.

(** How a computation ends: a value, a thrown error, or [process.exit]. *)
Inductive outcome (A : Type) :=
| Ret (a : A)
| Throw (e : error)
| Exit (code : Z).
Arguments Ret {A} a.
Arguments Throw {A} e.
Arguments Exit {A} code.

Definition M (A : Type) : Type := world -> outcome A * world.

Definition ret {A} (a : A) : M A := fun w => (Ret a, w).
Definition throw {A} (e : error) : M A := fun w => (Throw e, w).

Definition bind {A B} (m : M A) (k : A -> M B) : M B :=
  fun w =>
    match m w with
    | (Ret a, w') => k a w'
    | (Throw e, w') => (Throw e, w')
    | (Exit c, w') => (Exit c, w')
    end.

(** try { m } catch (error) { h error }; [process.exit] is not catchable. *)
Definition try_catch {A} (m : M A) (h : error -> M A) : M A :=
  fun w =>
    match m w with
    | (Throw e, w') => h e w'
    | r => r
    end.

Definition emit (e : event) : M unit :=
  fun w => (Ret tt, mkWorld (files w) (trace w ++ [e])).

Definition process_exit {A} (code : Z) : M A := fun w => (Exit code, w).

Definition console_log (m : message) : M unit := emit (ConsoleLog m).
Definition console_error (m : message) : M unit := emit (ConsoleError m).

Definition get_files : M (gmap (list N) (list N)) := fun w => (Ret (files w), w).
Definition put_files (fs : gmap (list N) (list N)) : M unit :=
  fun w => (Ret tt, mkWorld fs (trace w)).

Section Primitives.
Variable os : env.

(** fs.existsSync(p) *)
Definition existsSync (p : jsstring) : M bool :=
  fun w => (Ret (bool_decide (is_Some (files w !! p))),
            mkWorld (files w) (trace w ++ [Access p])).

(** fs.promises.access(p): rejects when nothing is there. *)
Definition access (p : jsstring) : M unit :=
  fun w =>
    let w' := mkWorld (files w) (trace w ++ [Access p]) in
    match files w !! p with
    | Some _ => (Ret tt, w')
    | None => (Throw (ENOENT p), w')
    end.

(** fs.promises.readFile(p, 'utf-8') *)
Definition readFile (p : jsstring) : M jsstring :=
  fun w =>
    let w' := mkWorld (files w) (trace w ++ [ReadFile p]) in
    match files w !! p with
    | Some content => (Ret content, w')
    | None => (Throw (ENOENT p), w')
    end.

(** fs.promises.writeFile(p, content) *)
Definition writeFile (p content : jsstring) : M unit :=
  fun w =>
    if writable os p
    then (Ret tt, mkWorld (<[p := content]> (files w)) (trace w ++ [WriteFile p]))
    else (Throw (WriteFailed p), mkWorld (files w) (trace w ++ [WriteFile p])).

(** fs.promises.mkdir(p, { recursive: true }) *)
Definition mkdir (p : jsstring) : M unit :=
  fun w =>
    let w' := mkWorld (files w) (trace w ++ [Mkdir p]) in
    if writable os p then (Ret tt, w') else (Throw (MkdirFailed p), w').

(** JSON.parse *)
Definition JSON_parse (text : jsstring) : M (list Podcast) :=
  match json_parse os text with
  | Some v => ret v
  | None => throw SyntaxError
  end.

End Primitives.

End Node.

Declare Scope node_scope.
Delimit Scope node_scope with node.
Notation "'let*' x ':=' m 'in' k" := (Node.bind m (fun x => k))
  (at level 10, x name, m at level 99, k at level 200) : node_scope.
Notation "'do' m ';;' k" := (Node.bind m (fun _ => k))
  (at level 10, m at level 99, k at level 200) : node_scope.

(* --------------------------------------------------------------------- *)
(* The scraper: catalog merge                                             *)
(* --------------------------------------------------------------------- *)

Module Scraper.
Import Node.
Local Open Scope node_scope.

(** The template literal [`${p.title}|${p.releaseDate}`]. *)
Definition identifier (p : Podcast) : jsstring :=
  title p ++ [124] ++ releaseDate p.

(** [new Set(existing.map(p => `${p.title}|${p.releaseDate}`))] *)
Definition existingSet (existing : list Podcast) : gset (list N) :=
  list_to_set (map identifier existing).

(** [newPodcasts.filter(p => !existingSet.has(...))] *)
Definition uniqueNewPodcasts (existing newPodcasts : list Podcast) : list Podcast :=
  List.filter (fun p => negb (bool_decide (identifier p ∈ existingSet existing)))
              newPodcasts.

Definition mergePodcasts (existing newPodcasts : list Podcast) : M (list Podcast) :=
  let fresh := uniqueNewPodcasts existing newPodcasts in
  do (if (0 <? length fresh)%nat
      then console_log (FoundNew (length fresh))
      else console_log NoNewFound) ;;
  ret (existing ++ fresh).

(** The array [mergePodcasts] resolves to. *)
Definition merge (E inc : list Podcast) : list Podcast :=
  E ++ uniqueNewPodcasts E inc.

(** The identity keys of a catalog, in order. *)
Definition keys (c : list Podcast) : list jsstring := map identifier c.

(** [m] resolves to [a] whatever the state of the world. *)
Definition resolves {A} (m : M A) (a : A) : Prop :=
  forall w, fst (m w) = Ret a.

(** Spec-side reading of "deduplicates N against itself, keeping only the
    first occurrence for each identity key". *)
Fixpoint dedup_first (seen : list jsstring) (l : list Podcast) : list Podcast :=
  match l with
  | [] => []
  | p :: r =>
      if bool_decide (identifier p ∈ seen) then dedup_first seen r
      else p :: dedup_first (identifier p :: seen) r
  end.

Section Program.
Variable os : env.
Variable output : jsstring.          (* argv.output *)

Definition readExistingPodcasts (filePath : jsstring) : M (list Podcast) :=
  try_catch
    (let* present := existsSync filePath in
     if negb present then ret []
     else let* fileContent := readFile filePath in
          JSON_parse os fileContent)
    (fun error => do console_error (ErrorReadingExisting error) ;; ret []).

(** The browser session, once the browser has started (launch, newContext
    and newPage stand before the try of scrapePodcasts): it yields the
    scraped records, and the empty array after an error inside its try. *)
Definition scrapePodcasts : M (list Podcast) := ret (scraped os).

Definition main : M unit :=
  try_catch
    (let outputPath := path_resolve os output in
     let* existingPodcasts := readExistingPodcasts outputPath in
     do console_log (FoundExisting (length existingPodcasts)) ;;
     let* newPodcasts := scrapePodcasts in
     let* mergedPodcasts := mergePodcasts existingPodcasts newPodcasts in
     do writeFile os outputPath (json_stringify os mergedPodcasts) ;;
     console_log (SuccessfullySaved (length mergedPodcasts) outputPath))
    (fun error => do console_error (FailedToSave error) ;; process_exit 1).

End Program.

End Scraper.

(* --------------------------------------------------------------------- *)
(* The downloader                                                         *)
(* --------------------------------------------------------------------- *)

Module Downloader.
Import Node.
Local Open Scope node_scope.

(** The parsed command line. *)
Record Argv := mkArgv {
  input : jsstring;
  download_dir : jsstring;
  filter : option jsstring;
  parallel : Z;
  force : bool;
  dry_run : bool;
  convert : bool
}.

(** The class of invalid characters: slash, backslash, question mark,
    percent, asterisk, colon, vertical bar, double quote, less-than and
    greater-than. *)
Definition invalid_char (c : N) : bool :=
  existsb (N.eqb c) [47; 92; 63; 37; 42; 58; 124; 34; 60; 62].

(** The class [\s]: white space and line terminators. *)
Definition white_space (c : N) : bool :=
  existsb (N.eqb c)
    [9; 10; 11; 12; 13; 32; 0xa0; 0x1680; 0x2028; 0x2029; 0x202f; 0x205f;
     0x3000; 0xfeff]
  || ((0x2000 <=? c) && (c <=? 0x200a)).

(** A unit that neither [replace] of [sanitizeFilename] touches. *)
Definition plain (c : N) : Prop := invalid_char c = false /\ white_space c = false.

(** The first [replace]: every invalid character becomes a dash. *)
Definition replace_invalid (s : jsstring) : jsstring :=
  map (fun c => if invalid_char c then 45 else c) s.

(** The second [replace]: every maximal run of white space becomes one
    underscore. [in_run] says the previous unit was white space, whose
    run has already been replaced. *)
Fixpoint replace_spaces (in_run : bool) (s : jsstring) : jsstring :=
  match s with
  | [] => []
  | c :: r =>
      if white_space c
      then (if in_run then replace_spaces true r else 95 :: replace_spaces true r)
      else c :: replace_spaces false r
  end.

Definition sanitizeFilename (filename : jsstring) : jsstring :=
  replace_spaces false (replace_invalid filename).

(** Does [s] end with [suffix]. *)
Definition ends_with (suffix s : jsstring) : bool :=
  bool_decide (drop (length s - length suffix) s = suffix).

(** [inputPath.replace(/\.mp3$/, _)] with the extension m4a. *)
Definition replace_mp3 (inputPath : jsstring) : jsstring :=
  if ends_with (js ".mp3") inputPath
  then take (length inputPath - 4) inputPath ++ js ".m4a"
  else inputPath.

Definition download_label (wasDownloaded : bool) : status :=
  if wasDownloaded then downloaded else skipped.

Definition convert_label (wasConverted : bool) : status :=
  if wasConverted then converted else skipped.

Section Program.
Variable os : env.
Variable argv : Argv.

Definition fileExists (path : jsstring) : M bool :=
  try_catch (do access path ;; ret true) (fun _ => ret false).

(** [await fetch(url)] *)
Definition fetch (url : jsstring) : M response :=
  do emit (Fetch url) ;;
  match http os url with
  | Some r => ret r
  | None => throw (FetchFailed url)
  end.

(** [await pipeline(Readable.fromWeb(body), createWriteStream(outputPath))]:
    the file is created, and filled as far as the stream gets. *)
Definition pipeline (b : body) (outputPath : jsstring) : M unit :=
  do emit (WriteFile outputPath) ;;
  if writable os outputPath then
    let* fs := get_files in
    match breaks_at b with
    | None => put_files (<[outputPath := data b]> fs)
    | Some n =>
        do put_files (<[outputPath := take n (data b)]> fs) ;;
        throw (StreamFailed outputPath)
    end
  else throw (StreamFailed outputPath).

Definition downloadFile (url outputPath : jsstring) (force dryRun : bool) : M bool :=
  let* present := (if negb force then fileExists outputPath else ret false) in
  if negb force && present then ret false
  else if dryRun then
    do console_log (WouldDownload url outputPath) ;;
    ret false
  else
    let* response := fetch url in
    if negb (ok response) then throw (FailedToDownload url (statusText response))
    else match resp_body response with
         | None => throw (NoResponseBody url)
         | Some b =>
             do pipeline b outputPath ;;
             ret true
         end.

(** [execFileSync] of ffmpeg with [args]. *)
Definition execFileSync_ffmpeg (args : list jsstring) : M unit :=
  do emit (ExecFileSync (js "ffmpeg") args) ;;
  if ffmpeg_installed os then
    let* fs := get_files in
    do put_files (snd (ffmpeg os fs args)) ;;
    if fst (ffmpeg os fs args) then ret tt
    else throw (ExecFailed (js "ffmpeg"))
  else throw (ExecFailed (js "ffmpeg")).

Definition convertToM4A (inputPath : jsstring) (dryRun force : bool) : M bool :=
  let outputPath := replace_mp3 inputPath in
  let* present := (if negb force then fileExists outputPath else ret false) in
  if negb force && present then ret false
  else
    do (if dryRun then console_log (WouldConvert inputPath outputPath)
        else execFileSync_ffmpeg
               [js "-i"; inputPath; js "-c:a"; js "aac"; js "-b:a"; js "96k";
                outputPath]) ;;
    ret true.

(** [execSync] of the ffmpeg version query. *)
Definition execSync_ffmpeg_version : M unit :=
  do emit (ExecSync (js "ffmpeg -version")) ;;
  if ffmpeg_installed os then ret tt
  else throw (ExecFailed (js "ffmpeg -version")).

(** [progressBar.tick({ file, status })] *)
Definition tick (file : jsstring) (s : status) : M unit := emit (Tick file s).

(** The first two lines of the function handed to [limit], which stand
    before its try block: the file name and the output path. Reading the
    title of a record that has no string there throws in sanitizeFilename,
    and nothing catches it inside the function. *)
Definition task_names (absoluteDownloadDir : jsstring) (podcast : Podcast)
  : M (jsstring * jsstring) :=
  if untitled os podcast then throw TitleTypeError
  else
    let filename := sanitizeFilename (title podcast) ++ js ".mp3" in
    ret (filename, path_join os absoluteDownloadDir filename).

(** The try block of a task, for a record whose title is a string, with
    the two names it uses. *)
Definition task_try (absoluteDownloadDir : jsstring) (podcast : Podcast) : M unit :=
  let filename := sanitizeFilename (title podcast) ++ js ".mp3" in
  let outputPath := path_join os absoluteDownloadDir filename in
  let* wasDownloaded :=
    downloadFile (downloadLink podcast) outputPath (force argv) (dry_run argv) in
  if convert argv then
    let* wasConverted := convertToM4A outputPath (dry_run argv) (force argv) in
    tick filename (convert_label wasConverted)
  else
    tick filename (download_label wasDownloaded).

(** The try and catch of the function handed to [limit], for a record
    whose title is a string. *)
Definition task (absoluteDownloadDir : jsstring) (podcast : Podcast) : M unit :=
  try_catch
    (task_try absoluteDownloadDir podcast)
    (fun error => console_error (FailedToDownloadTitle (title podcast) error)).

(** Modelled from the spec: the concurrency limiter, package p-limit,
    whose code is not part of the sources. [pLimit(n)] hands out at most
    [n] slots; it accepts only a number from 1 up and throws otherwise. *)
Definition pLimit (concurrency : Z) : M nat :=
  if (1 <=? concurrency)%Z then ret (Z.to_nat concurrency)
  else throw ConcurrencyTypeError.

(** The text a pattern is tested on: the title, or the text undefined for
    a record without a string title. *)
Definition title_text (podcast : Podcast) : jsstring :=
  if untitled os podcast then js "undefined" else title podcast.

(** [main] up to the creation of the tasks: [None] is the early return on
    an empty list, otherwise the podcasts to fetch, the directory and the
    number of slots. The progress bar shows nothing until its first tick. *)
Definition startup : M (option (list Podcast * jsstring * nat)) :=
  let* jsonContent := readFile (input argv) in
  let* parsed := JSON_parse os jsonContent in
  do try_catch execSync_ffmpeg_version
       (fun _ => do console_error FfmpegNotInstalled ;; process_exit 1) ;;
  let* podcasts :=
    match filter argv with
    | Some (c :: r) =>
        match regexp_i os (c :: r) with
        | Some test =>
            let kept := List.filter (fun p => test (title_text p)) parsed in
            do console_log (FilteredTo (length kept) (c :: r)) ;;
            ret kept
        | None => throw SyntaxError
        end
    | _ => ret parsed
    end in
  if (length podcasts =? 0)%nat then
    do console_log NoPodcastsToDownload ;;
    ret None
  else
    let absoluteDownloadDir := path_resolve os (download_dir argv) in
    do mkdir os absoluteDownloadDir ;;
    let* limit := pLimit (parallel argv) in
    ret (Some (podcasts, absoluteDownloadDir, limit)).

(** What the event loop does next: let the limiter start the oldest queued
    task, or let the [i]-th running task run to its end. *)
Inductive choice :=
| Admit
| Settle (i : nat).

(** Why the tasks stopped early: a task promise rejected (and so did
    Promise.all), or the process exited. *)
Inductive halt :=
| Rejected (e : error)
| Exited (code : Z).

(** The tasks handed to [limit], between their creation and the end of
    [Promise.all]. A task's two first lines run when it starts; the
    effects of its try and catch are recorded when it settles. *)
Record sched := mkSched {
  pending : list Podcast;      (* queued, in catalog order *)
  active : list Podcast;       (* started and not settled *)
  settled : list Podcast;      (* settled, oldest first *)
  halted : option halt;
  st : world
}.

(** A task promise rejects with [e]: Promise.all rejects, the catch of
    [main] writes the error and the process exits. *)
Definition reject (e : error) (queued running done : list Podcast) (w : world)
  : sched :=
  mkSched queued running done (Some (Rejected e))
          (snd (console_error (ErrorMsg e) w)).

Definition init (podcasts : list Podcast) (w : world) : sched :=
  mkSched podcasts [] [] None w.

(** Modelled from the spec: the limiter starts a queued task only while
    fewer than [cap] tasks are running, oldest first; a settled task gives
    its slot back at once. *)
Definition step (cap : nat) (dir : jsstring) (c : choice) (s : sched)
  : option sched :=
  match halted s with
  | Some _ => None
  | None =>
      match c with
      | Admit =>
          match pending s with
          | p :: q =>
              if (length (active s) <? cap)%nat
              then match task_names dir p (st s) with
                   | (Throw e, w') =>
                       Some (reject e q (active s) (settled s ++ [p]) w')
                   | _ => Some (mkSched q (active s ++ [p]) (settled s) None (st s))
                   end
              else None
          | [] => None
          end
      | Settle i =>
          match active s !! i with
          | Some p =>
              let running := delete i (active s) in
              let done := settled s ++ [p] in
              match task dir p (st s) with
              | (Ret _, w') => Some (mkSched (pending s) running done None w')
              | (Throw e, w') => Some (reject e (pending s) running done w')
              | (Exit code, w') =>
                  Some (mkSched (pending s) running done (Some (Exited code)) w')
              end
          | None => None
          end
      end
  end.

(** Follow a schedule; a choice that is not possible is passed over. *)
Fixpoint exec (cap : nat) (dir : jsstring) (schedule : list choice) (s : sched)
  : sched :=
  match schedule with
  | [] => s
  | c :: rest =>
      match step cap dir c s with
      | Some s' => exec cap dir rest s'
      | None => exec cap dir rest s
      end
  end.

(** What every state of a run satisfies, given the tasks [ps] it began
    with and the number of slots. *)
Record invariant (cap : nat) (ps : list Podcast) (s : sched) : Prop := {
  inv_cap : (length (active s) <= cap)%nat;
  inv_all : settled s ++ active s ++ pending s ≡ₚ ps;
  inv_fifo : cap = 1%nat -> settled s ++ active s ++ pending s = ps
}.

(** One task at a time, in catalog order. *)
Fixpoint sequential (n : nat) : list choice :=
  match n with
  | O => []
  | S k => Admit :: Settle 0 :: sequential k
  end.

(** [main] under a schedule of the event loop: the exit code of the
    process, or [None] while tasks are still in flight, and the world. *)
Definition main (schedule : list choice) (w : world) : option Z * world :=
  match startup w with
  | (Ret None, w1) => (Some 0%Z, w1)
  | (Ret (Some (podcasts, absoluteDownloadDir, limit)), w1) =>
      let s := exec limit absoluteDownloadDir schedule (init podcasts w1) in
      match halted s, pending s, active s with
      | Some (Rejected e), _, _ => (Some 1%Z, st s)
      | Some (Exited code), _, _ => (Some code, st s)
      | None, [], [] =>
          (Some 0%Z, snd (console_log DownloadsComplete (st s)))
      | None, _, _ => (None, st s)
      end
  | (Throw e, w1) => (Some 1%Z, snd (console_error (ErrorMsg e) w1))
  | (Exit code, w1) => (Some code, w1)
  end.

End Program.

End Downloader.

(* --------------------------------------------------------------------- *)
(* Reading traces                                                         *)
(* --------------------------------------------------------------------- *)

Module Observe.
Import Node.

(** The events added between [w] and the later [w']. *)
Definition since (w w' : world) : list event :=
  drop (length (trace w)) (trace w').

Definition network_call (e : event) : bool :=
  match e with Fetch _ => true | _ => false end.

Definition subprocess (e : event) : bool :=
  match e with ExecSync _ | ExecFileSync _ _ => true | _ => false end.

Definition fs_write (e : event) : bool :=
  match e with WriteFile _ | Mkdir _ => true | _ => false end.

Definition progress_event (e : event) : bool :=
  match e with Tick _ _ => true | _ => false end.

Definition encoder_check (e : event) : bool :=
  match e with ExecSync _ => true | _ => false end.

Definition error_line (e : event) : bool :=
  match e with ConsoleError _ => true | _ => false end.

(** Neither a tick of the progress bar nor a line on the error console. *)
Definition inner (e : event) : bool :=
  negb (progress_event e) && negb (error_line e).

(** [m] never ends the process, and only adds events of kind [allowed]
    to the trace. *)
Definition tame (allowed : event -> bool) {A} (m : M A) : Prop :=
  forall w,
    (forall code, fst (m w) <> Exit code) /\
    exists evs, trace (snd (m w)) = trace w ++ evs /\ forallb allowed evs = true.

(** How many events of a trace satisfy [f]. *)
Definition count (f : event -> bool) (t : list event) : nat :=
  length (List.filter f t).

(** Nothing of kind [f] happened between [w] and [w']. *)
Definition silent (f : event -> bool) (w w' : world) : Prop :=
  existsb f (since w w') = false.

End Observe.

(* --------------------------------------------------------------------- *)
(* Sample data                                                            *)
(* --------------------------------------------------------------------- *)

Module Sample.
Import Node.

Definition ep1 : Podcast :=
  mkPodcast (js "A - Ep1") (js "2020-01-01T00:00:00.000Z") (js "http://x/1.mp3") [].
Definition ep1_rescraped : Podcast :=
  mkPodcast (js "A - Ep1") (js "2020-01-01T00:00:00.000Z") (js "http://x/1b.mp3")
            (js "again").
Definition ep2 : Podcast :=
  mkPodcast (js "B - Ep2") (js "2021-01-01T00:00:00.000Z") (js "http://x/2.mp3") [].
Definition ep3 : Podcast :=
  mkPodcast (js "C: Ep3") (js "2022-01-01T00:00:00.000Z") (js "http://x/3.mp3") [].

(** A catalog file that parses, and one that does not. *)
Definition catalog_text : jsstring := js "[ep1,ep2,ep3]".
Definition broken_text : jsstring := js "[{".

(** The server answers 404 for the second episode. *)
Definition server (url : jsstring) : option response :=
  if bool_decide (url = js "http://x/2.mp3")
  then Some (mkResponse false (js "Not Found") None)
  else Some (mkResponse true (js "OK") (Some (mkBody (js "audio") None))).

(** The encoder copies its input to its output; without input it fails,
    leaving an empty output behind. *)
Definition encoder (fs : gmap (list N) (list N)) (args : list jsstring)
  : bool * gmap (list N) (list N) :=
  match args with
  | [_; i; _; _; _; _; o] =>
      match fs !! i with
      | Some c => (true, <[o := c]> fs)
      | None => (false, <[o := []]> fs)
      end
  | _ => (false, fs)
  end.

(** A sample machine: one catalog text parses, paths are joined with a
    slash under /home, every pattern compiles and matches the first title
    only, every path is writable. *)
Definition os (with_ffmpeg : bool) : env :=
  mkEnv (fun text => if bool_decide (text = catalog_text)
                     then Some [ep1; ep2; ep3] else None)
        (fun l => concat (map title l))
        (fun p => js "/home/" ++ p)
        (fun d f => d ++ js "/" ++ f)
        (fun _ => Some (fun t => bool_decide (t = title ep1)))
        server
        (fun _ => true)
        with_ffmpeg
        encoder
        [ep1_rescraped; ep2]
        (fun _ => false).

Definition disk (text : jsstring) : world :=
  mkWorld {[ js "podcasts.json" := text ]} [].

Definition scraper_disk (text : jsstring) : world :=
  mkWorld {[ js "/home/podcasts.json" := text ]} [].

Definition empty_disk : world := mkWorld ∅ [].

End Sample.

Module SampleArgs.
Import Downloader.

(** The defaults of the command line, with one download at a time. *)
Definition defaults : Argv :=
  mkArgv (js "podcasts.json") (js "downloads") None 1 false false false.

Definition with_convert_dry_run : Argv :=
  mkArgv (js "podcasts.json") (js "downloads") None 1 false true true.

End SampleArgs.

(* --------------------------------------------------------------------- *)
(* The first scraper (scraper.ts): scrape and save, without merging       *)
(* --------------------------------------------------------------------- *)

Module ScraperTs.
Import Node.
Local Open Scope node_scope.

Section Program.
Variable os : env.
Variable output : jsstring.          (* argv.output *)

(** The browser session once the browser has started, as for the later
    scraper. *)
Definition scrapePodcasts : M (list Podcast) := ret (scraped os).

Definition main : M unit :=
  try_catch
    (let* podcasts := scrapePodcasts in
     let outputPath := path_resolve os output in
     do writeFile os outputPath (json_stringify os podcasts) ;;
     console_log (SuccessfullySaved (length podcasts) outputPath))
    (fun error => do console_error (FailedToSave error) ;; process_exit 1).

End Program.

End ScraperTs.

(* --------------------------------------------------------------------- *)
(* The loop of scrapePodcasts over the articles of the page               *)
(* --------------------------------------------------------------------- *)

Module Articles.
Import Downloader.

(** What the page holds for one article: for each selector the text or
    attribute that [$eval] yields, or [None] when no element matches and
    [$eval] throws. *)
Record article := mkArticle {
  roofline : option jsstring;      (* .manualteaserroofline, textContent *)
  titleText : option jsstring;     (* .manualteasertitle, textContent *)
  shorttext : option jsstring;     (* .manualteasershorttext, textContent *)
  datetime : option jsstring;      (* time, attribute datetime *)
  href : option jsstring           (* a.ico_download, attribute href *)
}.

(** What becomes of one article: a record is pushed, or nothing is pushed
    (both followed by a tick of the progress bar), or the try block throws
    and the error is logged. *)
Inductive fate :=
| Pushed (p : Podcast)
| Dropped
| Failed.

Fixpoint drop_spaces (s : jsstring) : jsstring :=
  match s with
  | [] => []
  | c :: r => if white_space c then drop_spaces r else s
  end.

(** String.prototype.trim: white space and line terminators go from both
    ends. *)
Definition trim (s : jsstring) : jsstring :=
  rev (drop_spaces (rev (drop_spaces s))).

(** A string is truthy when it is not empty. *)
Definition truthy (s : jsstring) : bool :=
  match s with [] => false | _ => true end.

Section Loop.
(** [new Date(text).toISOString()]; [None] when the date is invalid and
    toISOString throws. *)
Variable toISOString : jsstring -> option jsstring.

(** The body of the loop for one article. *)
Definition process (a : article) : fate :=
  match roofline a with
  | None => Failed
  | Some r =>
  match titleText a with
  | None => Failed
  | Some t =>
  let title := trim (r ++ js " - " ++ t) in
  match shorttext a with
  | None => Failed
  | Some description =>
  match datetime a with
  | None => Failed
  | Some dateText =>
  match toISOString dateText with
  | None => Failed
  | Some releaseDate =>
  match href a with
  | None => Failed
  | Some downloadLink =>
      if truthy title && truthy releaseDate && truthy downloadLink
      then Pushed (mkPodcast title releaseDate downloadLink description)
      else Dropped
  end end end end end end.

(** The state of the loop: the array [podcasts], the ticks of the
    progress bar and the errors logged so far. *)
Record tally := mkTally {
  podcasts : list Podcast;
  ticks : nat;
  errors : nat
}.

Definition record_fate (acc : tally) (f : fate) : tally :=
  match f with
  | Pushed p => mkTally (podcasts acc ++ [p]) (S (ticks acc)) (errors acc)
  | Dropped => mkTally (podcasts acc) (S (ticks acc)) (errors acc)
  | Failed => mkTally (podcasts acc) (ticks acc) (S (errors acc))
  end.

(** [for (const article of articles) { ... }] *)
Definition scrape_loop (articles : list article) : tally :=
  fold_left (fun acc a => record_fate acc (process a)) articles
            (mkTally [] 0 0).

End Loop.

End Articles.

(* --------------------------------------------------------------------- *)
(* More sample data                                                       *)
(* --------------------------------------------------------------------- *)

Module Sample2.
Import Node.

(** A machine whose parser reads back the two catalogs its serializer
    writes in the sample runs. *)
Definition write_catalog (l : list Podcast) : jsstring := concat (map title l).

Definition read_catalog (text : jsstring) : option (list Podcast) :=
  if bool_decide (text = write_catalog [Sample.ep1]) then Some [Sample.ep1]
  else if bool_decide (text = write_catalog [Sample.ep1; Sample.ep2])
       then Some [Sample.ep1; Sample.ep2]
       else None.

Definition os : env :=
  mkEnv read_catalog write_catalog
        (fun p => js "/home/" ++ p)
        (fun d f => d ++ js "/" ++ f)
        (fun _ => None)
        Sample.server
        (fun _ => true)
        true
        Sample.encoder
        [Sample.ep1_rescraped; Sample.ep2]
        (fun _ => false).

Definition disk : world :=
  mkWorld {[ js "/home/podcasts.json" := write_catalog [Sample.ep1] ]} [].

(** A server whose stream of the first episode breaks after two units. *)
Definition flaky (url : jsstring) : option response :=
  Some (mkResponse true (js "OK") (Some (mkBody (js "audio") (Some 2%nat)))).

Definition os_flaky : env :=
  mkEnv read_catalog write_catalog
        (fun p => js "/home/" ++ p)
        (fun d f => d ++ js "/" ++ f)
        (fun _ => None)
        flaky
        (fun _ => true)
        true
        Sample.encoder
        []
        (fun _ => false).



(** A machine whose catalog holds three records, the second of them
    without a string as its title. *)
Definition os_untitled : env :=
  mkEnv (json_parse (Sample.os true)) write_catalog
        (fun p => js "/home/" ++ p)
        (fun d f => d ++ js "/" ++ f)
        (fun _ => None)
        Sample.server
        (fun _ => true)
        true
        Sample.encoder
        []
        (fun p => bool_decide (downloadLink p = js "http://x/2.mp3")).

(** Two titles that differ only in an invalid character. *)
Definition slash : Podcast :=
  mkPodcast (js "A/B") (js "2020") (js "http://x/1.mp3") [].
Definition query : Podcast :=
  mkPodcast (js "A?B") (js "2021") (js "http://x/3.mp3") [].

(** The date parser of the sample page: the empty text is no date. *)
Definition iso (text : jsstring) : option jsstring :=
  match text with [] => None | _ => Some (text ++ js "T00:00:00.000Z") end.

End Sample2.

(* --------------------------------------------------------------------- *)
(* More ways to read a run                                                *)
(* --------------------------------------------------------------------- *)

Module Observe2.
Import Node Observe.

(** A file is opened for writing. *)
Definition file_write (e : event) : bool :=
  match e with WriteFile _ => true | _ => false end.

(** The encoder itself is run. *)
Definition encoder_run (e : event) : bool :=
  match e with ExecFileSync _ _ => true | _ => false end.

(** What a dry run may do: anything but fetch, write a file or encode. *)
Definition harmless (e : event) : bool :=
  negb (network_call e) && negb (file_write e) && negb (encoder_run e).

(** [m] leaves the files as they are and adds only events of kind
    [allowed]. *)
Definition inert (allowed : event -> bool) {A} (m : M A) : Prop :=
  forall w,
    files (snd (m w)) = files w /\
    exists evs, trace (snd (m w)) = trace w ++ evs /\ forallb allowed evs = true.

End Observe2.

Module SampleArgs2.
Import Downloader.

Definition with_convert : Argv :=
  mkArgv (js "podcasts.json") (js "downloads") None 1 false false true.

Definition dry_run_only : Argv :=
  mkArgv (js "podcasts.json") (js "downloads") None 2 false true false.

Definition two_slots : Argv :=
  mkArgv (js "podcasts.json") (js "downloads") None 2 false false false.


End SampleArgs2.

(* --------------------------------------------------------------------- *)
(* Catalog merge: properties                                              *)
(* --------------------------------------------------------------------- *)

Module MergeProps.
Import Scraper.

Lemma merge_unfold E inc : merge E inc = E ++ uniqueNewPodcasts E inc.
Proof. reflexivity. Qed.

Lemma in_existingSet k E : k ∈ existingSet E <-> In k (keys E).
Proof.
  unfold existingSet, keys. rewrite elem_of_list_to_set.
  apply list_elem_of_In.
Qed.

Lemma unique_spec p E inc :
  In p (uniqueNewPodcasts E inc) <-> In p inc /\ ~ In (identifier p) (keys E).
Proof.
  unfold uniqueNewPodcasts. rewrite List.filter_In.
  rewrite negb_true_iff, bool_decide_eq_false, in_existingSet. tauto.
Qed.

Lemma merge_nil_r E : merge E [] = E.
Proof. rewrite merge_unfold. simpl. apply app_nil_r. Qed.

Lemma unique_nil_l inc : uniqueNewPodcasts [] inc = inc.
Proof.
  unfold uniqueNewPodcasts. induction inc as [|p inc IH]; simpl; [reflexivity|].
  rewrite bool_decide_eq_false_2.
  - simpl. f_equal. exact IH.
  - rewrite in_existingSet. simpl. tauto.
Qed.

Lemma merge_nil_l inc : merge [] inc = inc.
Proof. rewrite merge_unfold. simpl. apply unique_nil_l. Qed.

Lemma filter_none {A} (f : A -> bool) (l : list A) :
  (forall x, In x l -> f x = false) -> List.filter f l = [].
Proof.
  induction l as [|a l IH]; simpl; intros H; [reflexivity|].
  rewrite (H a) by auto. apply IH. intros x Hx. apply H. auto.
Qed.

Lemma keys_app a b : keys (a ++ b) = keys a ++ keys b.
Proof. apply List.map_app. Qed.

(** Every record of [inc] has its key in the merged catalog. *)
Lemma merge_covers E inc p : In p inc -> In (identifier p) (keys (merge E inc)).
Proof.
  intros Hp. rewrite merge_unfold, keys_app, in_app_iff.
  destruct (decide (identifier p ∈ keys E)) as [H|H];
    rewrite list_elem_of_In in H.
  - left. exact H.
  - right. apply in_map. apply unique_spec. split; assumption.
Qed.

Lemma unique_after_merge E inc : uniqueNewPodcasts (merge E inc) inc = [].
Proof.
  unfold uniqueNewPodcasts. apply filter_none. intros p Hp.
  rewrite negb_false_iff, bool_decide_eq_true, in_existingSet.
  apply merge_covers. exact Hp.
Qed.

Lemma NoDup_filter_keys (f : Podcast -> bool) l :
  NoDup (keys l) -> NoDup (keys (List.filter f l)).
Proof.
  induction l as [|a l IH]; simpl; intros H; [constructor|].
  apply NoDup_cons in H. destruct H as [Hn Hd].
  destruct (f a); simpl.
  - apply NoDup_cons. split.
    + intros Hin. apply Hn. unfold keys in *.
      rewrite list_elem_of_In in Hin |- *.
      apply in_map_iff in Hin. destruct Hin as [q [Hq Hin]].
      apply List.filter_In in Hin. apply in_map_iff. exists q. tauto.
    + apply IH. exact Hd.
  - apply IH. exact Hd.
Qed.

Lemma mergePodcasts_resolves E inc : resolves (mergePodcasts E inc) (merge E inc).
Proof.
  intros w. unfold mergePodcasts, merge, Node.bind.
  destruct (0 <? length (uniqueNewPodcasts E inc))%nat; reflexivity.
Qed.

Lemma dedup_first_id seen l :
  NoDup (keys l) -> (forall k, In k (keys l) -> ~ In k seen) ->
  dedup_first seen l = l.
Proof.
  revert seen. induction l as [|p l IH]; intros seen Hnd Hs; simpl; [reflexivity|].
  simpl in Hnd. apply NoDup_cons in Hnd. destruct Hnd as [Hp Hnd].
  rewrite bool_decide_eq_false_2.
  - f_equal. apply IH; [exact Hnd|].
    intros k Hk [Heq|Hin].
    + subst k. apply Hp. apply list_elem_of_In. exact Hk.
    + apply (Hs k); [right; exact Hk|exact Hin].
  - rewrite list_elem_of_In. apply Hs. left. reflexivity.
Qed.

Lemma merge_keys_NoDup E inc :
  NoDup (keys E) -> NoDup (keys inc) -> NoDup (keys (merge E inc)).
Proof.
  intros HE HN. rewrite merge_unfold, keys_app. apply NoDup_app.
  split; [exact HE|]. split.
  - intros k Hk Hk'. rewrite list_elem_of_In in Hk, Hk'.
    unfold keys in Hk'. apply in_map_iff in Hk'. destruct Hk' as [q [Hq Hin]].
    apply unique_spec in Hin. destruct Hin as [_ Hin]. subst k. tauto.
  - apply NoDup_filter_keys. exact HN.
Qed.

(** C1 (as amended): when neither the existing catalog nor the incoming
    list repeats an identity key, the catalog mergePodcasts resolves to
    has no duplicate identity keys; and merge([], N) is N itself, which is
    then its own first-occurrence deduplication. *)
Theorem merge_no_duplicates_when_inputs_have_none (E inc : list Podcast) :
  NoDup (keys E) -> NoDup (keys inc) ->
  resolves (mergePodcasts E inc) (merge E inc) /\
  NoDup (keys (merge E inc)) /\
  merge [] inc = inc /\
  merge [] inc = dedup_first [] inc.
Proof.
  intros HE HN. split; [apply mergePodcasts_resolves|].
  split; [apply merge_keys_NoDup; assumption|].
  split; [apply merge_nil_l|].
  rewrite merge_nil_l. symmetry. apply dedup_first_id; [exact HN|].
  intros k _ [].
Qed.

Lemma merge_no_duplicates_witness :
  resolves (mergePodcasts [Sample.ep1] [Sample.ep1_rescraped; Sample.ep2])
           (merge [Sample.ep1] [Sample.ep1_rescraped; Sample.ep2]) /\
  NoDup (keys (merge [Sample.ep1] [Sample.ep1_rescraped; Sample.ep2])) /\
  merge [] [Sample.ep1_rescraped; Sample.ep2] = [Sample.ep1_rescraped; Sample.ep2] /\
  merge [] [Sample.ep1_rescraped; Sample.ep2]
    = dedup_first [] [Sample.ep1_rescraped; Sample.ep2].
Proof.
  apply (merge_no_duplicates_when_inputs_have_none
           [Sample.ep1] [Sample.ep1_rescraped; Sample.ep2]).
  - refine (bool_decide_unpack _ _). vm_compute. exact I.
  - refine (bool_decide_unpack _ _). vm_compute. exact I.
Defined.

(** C1 fails as stated: merging the empty catalog with a list that holds
    the same record twice keeps both, so the result repeats an identity
    key and is not the first-occurrence deduplication of the list. *)
Lemma merge_keeps_incoming_duplicates :
  resolves (mergePodcasts [] [Sample.ep1; Sample.ep1]) [Sample.ep1; Sample.ep1] /\
  ~ NoDup (keys (merge [] [Sample.ep1; Sample.ep1])) /\
  merge [] [Sample.ep1; Sample.ep1] <> dedup_first [] [Sample.ep1; Sample.ep1].
Proof.
  split; [|split].
  - intros w. reflexivity.
  - rewrite merge_nil_l. intros H. simpl in H.
    apply NoDup_cons in H. destruct H as [H _]. apply H. left.
  - rewrite merge_nil_l. vm_compute. discriminate.
Qed.

(** C6: merging the same incoming list a second time changes nothing:
    mergePodcasts(mergePodcasts(E, N), N) resolves to what
    mergePodcasts(E, N) resolves to. *)
Theorem merge_idempotent (E inc : list Podcast) :
  resolves (mergePodcasts E inc) (merge E inc) /\
  resolves (mergePodcasts (merge E inc) inc) (merge E inc) /\
  merge (merge E inc) inc = merge E inc.
Proof.
  assert (H : merge (merge E inc) inc = merge E inc).
  { rewrite (merge_unfold (merge E inc)), unique_after_merge. apply app_nil_r. }
  split; [apply mergePodcasts_resolves|]. split; [|exact H].
  rewrite <- H at 2. apply mergePodcasts_resolves.
Qed.

(** The scenario of the specification: one known record scraped again and
    one new record give a catalog of two, the original first. *)
Example merge_scenario :
  merge [Sample.ep1] [Sample.ep1_rescraped; Sample.ep2] = [Sample.ep1; Sample.ep2].
Proof. vm_compute. reflexivity. Qed.

End MergeProps.

(* --------------------------------------------------------------------- *)
(* File names: properties                                                 *)
(* --------------------------------------------------------------------- *)

Module SanitizeProps.
Import Downloader.

Lemma replace_invalid_valid s :
  Forall (fun c => invalid_char c = false) (replace_invalid s).
Proof.
  unfold replace_invalid. induction s as [|c s IH]; simpl; constructor; [|exact IH].
  destruct (invalid_char c) eqn:Hc; [reflexivity|exact Hc].
Qed.

Lemma replace_spaces_keeps_valid b s :
  Forall (fun c => invalid_char c = false) s ->
  Forall (fun c => invalid_char c = false) (replace_spaces b s).
Proof.
  intros H. revert b. induction H as [|c s Hc Hs IH]; intros b; simpl; [constructor|].
  destruct (white_space c); [destruct b|]; repeat constructor; auto.
Qed.

Lemma replace_spaces_no_space b s :
  Forall (fun c => white_space c = false) (replace_spaces b s).
Proof.
  revert b. induction s as [|c s IH]; intros b; simpl; [constructor|].
  destruct (white_space c) eqn:Hc; [destruct b|]; repeat constructor; auto.
Qed.

Lemma sanitize_plain s : Forall plain (sanitizeFilename s).
Proof.
  unfold sanitizeFilename, plain. apply Forall_and. split.
  - apply replace_spaces_keeps_valid, replace_invalid_valid.
  - apply replace_spaces_no_space.
Qed.

Lemma replace_invalid_plain s : Forall plain s -> replace_invalid s = s.
Proof.
  unfold replace_invalid. induction 1 as [|c s [Hc _] _ IH]; simpl; [reflexivity|].
  rewrite Hc. f_equal. exact IH.
Qed.

Lemma replace_spaces_plain s : Forall plain s -> replace_spaces false s = s.
Proof.
  induction 1 as [|c s [_ Hc] _ IH]; simpl; [reflexivity|].
  rewrite Hc. f_equal. exact IH.
Qed.

Lemma sanitize_fixes_plain s : Forall plain s -> sanitizeFilename s = s.
Proof.
  intros H. unfold sanitizeFilename.
  rewrite (replace_invalid_plain s H). apply replace_spaces_plain. exact H.
Qed.

(** C10: sanitizeFilename is defined on every string, the empty one
    included, and sanitizing twice gives what sanitizing once gives. *)
Theorem sanitize_total_idempotent :
  sanitizeFilename [] = [] /\
  (forall x : jsstring, exists y, sanitizeFilename x = y) /\
  (forall x : jsstring,
      sanitizeFilename (sanitizeFilename x) = sanitizeFilename x).
Proof.
  split; [reflexivity|]. split.
  - intros x. eexists. reflexivity.
  - intros x. apply sanitize_fixes_plain, sanitize_plain.
Qed.

(** Invalid characters become dashes and each run of white space one
    underscore. *)
Example sanitize_title :
  sanitizeFilename (js "C: Ep3  \ what?") = js "C-_Ep3_-_what-".
Proof. vm_compute. reflexivity. Qed.

End SanitizeProps.

(* --------------------------------------------------------------------- *)
(* Transfer and transcode: skip, force and dry run                        *)
(* --------------------------------------------------------------------- *)

Module AgentProps.
Import Node Observe Downloader.

Lemma since_app w fs evs : since w (mkWorld fs (trace w ++ evs)) = evs.
Proof. unfold since. simpl. apply drop_app_length. Qed.

Lemma since_app2 w fs e1 e2 :
  since w (mkWorld fs ((trace w ++ [e1]) ++ [e2])) = [e1; e2].
Proof. rewrite <- app_assoc. apply since_app. Qed.

Lemma fileExists_present path w :
  is_Some (files w !! path) ->
  fileExists path w = (Ret true, mkWorld (files w) (trace w ++ [Access path])).
Proof.
  intros [c Hc]. unfold fileExists, try_catch, bind, access. rewrite Hc.
  reflexivity.
Qed.

Lemma fileExists_absent path w :
  files w !! path = None ->
  fileExists path w = (Ret false, mkWorld (files w) (trace w ++ [Access path])).
Proof.
  intros Hc. unfold fileExists, try_catch, bind, access. rewrite Hc.
  reflexivity.
Qed.

(** Not forcing, with the destination there: only the look at the disk. *)
Lemma downloadFile_present os url outputPath dryRun w :
  is_Some (files w !! outputPath) ->
  downloadFile os url outputPath false dryRun w
  = (Ret false, mkWorld (files w) (trace w ++ [Access outputPath])).
Proof.
  intros H. unfold downloadFile, bind. simpl.
  rewrite (fileExists_present _ _ H). reflexivity.
Qed.

Lemma convertToM4A_present os inputPath dryRun w :
  is_Some (files w !! replace_mp3 inputPath) ->
  convertToM4A os inputPath dryRun false w
  = (Ret false, mkWorld (files w) (trace w ++ [Access (replace_mp3 inputPath)])).
Proof.
  intros H. unfold convertToM4A, bind. simpl.
  rewrite (fileExists_present _ _ H). reflexivity.
Qed.

(** A dry run of the transfer ends in one of three worlds, none of them
    with a changed disk. *)
Lemma downloadFile_dry_run os url outputPath force w :
  exists evs,
    downloadFile os url outputPath force true w
    = (Ret false, mkWorld (files w) (trace w ++ evs)) /\
    (evs = [Access outputPath] \/
     evs = [Access outputPath; ConsoleLog (WouldDownload url outputPath)] \/
     evs = [ConsoleLog (WouldDownload url outputPath)]).
Proof.
  unfold downloadFile, bind. destruct force; simpl.
  - eexists. split; [reflexivity|]. right. right. reflexivity.
  - destruct (files w !! outputPath) as [c|] eqn:Hc.
    + rewrite fileExists_present by (rewrite Hc; eauto). simpl.
      eexists. split; [reflexivity|]. left. reflexivity.
    + rewrite (fileExists_absent _ _ Hc). simpl.
      exists [Access outputPath; ConsoleLog (WouldDownload url outputPath)].
      split; [|right; left; reflexivity].
      unfold console_log, emit. simpl. rewrite <- app_assoc. reflexivity.
Qed.

(** A dry run of the transcode starts no subprocess and leaves the disk
    alone, whatever it returns. *)
Lemma convertToM4A_dry_run_quiet os inputPath force w :
  exists b w',
    convertToM4A os inputPath true force w = (Ret b, w') /\
    files w' = files w /\ silent subprocess w w'.
Proof.
  unfold convertToM4A, bind, silent. destruct force; simpl.
  - eexists _, _. split; [reflexivity|]. split; [reflexivity|].
    rewrite since_app. reflexivity.
  - destruct (files w !! replace_mp3 inputPath) as [c|] eqn:Hc.
    + rewrite fileExists_present by (rewrite Hc; eauto). simpl.
      eexists _, _. split; [reflexivity|]. split; [reflexivity|].
      rewrite since_app. reflexivity.
    + rewrite (fileExists_absent _ _ Hc). simpl.
      eexists _, _. split; [reflexivity|]. split; [reflexivity|].
      rewrite since_app2. reflexivity.
Qed.

(** A dry run of the transcode returns true, the value that is shown as
    converted, unless the output is there and force is off. *)
Lemma convertToM4A_dry_run_true os inputPath force w :
  (force = true \/ files w !! replace_mp3 inputPath = None) ->
  exists w', convertToM4A os inputPath true force w = (Ret true, w').
Proof.
  unfold convertToM4A, bind. intros [->|Hc]; simpl.
  - eexists. reflexivity.
  - destruct force; simpl; [eexists; reflexivity|].
    rewrite (fileExists_absent _ _ Hc). simpl. eexists. reflexivity.
Qed.

(** C7: with force off and a file at the destination, the transfer
    returns what is shown as skipped without a network call, and the
    transcode, whose destination is its output path, returns what is shown
    as skipped without a subprocess; in a dry run the transfer returns
    what is shown as skipped with no network call and no write, the disk
    staying as it was. *)
Theorem skip_and_dry_run_do_no_io
    (os : env) (url dest : jsstring) (force dryRun : bool) (w : world) :
  (is_Some (files w !! dest) ->
   exists b w',
     downloadFile os url dest false dryRun w = (Ret b, w') /\
     download_label b = skipped /\ silent network_call w w') /\
  (is_Some (files w !! replace_mp3 dest) ->
   exists b w',
     convertToM4A os dest dryRun false w = (Ret b, w') /\
     convert_label b = skipped /\ silent subprocess w w') /\
  (exists b w',
     downloadFile os url dest force true w = (Ret b, w') /\
     download_label b = skipped /\
     silent network_call w w' /\ silent fs_write w w' /\ files w' = files w).
Proof.
  split; [|split].
  - intros H. eexists _, _. split; [apply downloadFile_present; exact H|].
    split; [reflexivity|]. unfold silent. rewrite since_app. reflexivity.
  - intros H. eexists _, _. split; [apply convertToM4A_present; exact H|].
    split; [reflexivity|]. unfold silent. rewrite since_app. reflexivity.
  - destruct (downloadFile_dry_run os url dest force w) as [evs [Hrun Hevs]].
    eexists _, _. split; [exact Hrun|]. split; [reflexivity|].
    unfold silent. rewrite since_app.
    destruct Hevs as [->|[->| ->]]; repeat split; reflexivity.
Qed.

Lemma skip_and_dry_run_witness :
  let w := mkWorld {[ js "/d/a.mp3" := js "audio"; js "/d/a.m4a" := js "aac" ]} [] in
  (exists b w',
     downloadFile (Sample.os true) (js "http://x/1.mp3") (js "/d/a.mp3") false false w
     = (Ret b, w') /\
     download_label b = skipped /\ silent network_call w w') /\
  (exists b w',
     convertToM4A (Sample.os true) (js "/d/a.mp3") false false w = (Ret b, w') /\
     convert_label b = skipped /\ silent subprocess w w').
Proof.
  intros w.
  destruct (skip_and_dry_run_do_no_io (Sample.os true) (js "http://x/1.mp3")
              (js "/d/a.mp3") false false w) as [H1 [H2 _]].
  split.
  - apply H1. vm_compute. eauto.
  - apply H2. vm_compute. eauto.
Defined.

(** C4, where the code departs from it: a dry run of the transcode, with
    no output on disk yet, starts no subprocess but returns true, which
    the task shows as converted and not as skipped. *)
Theorem dry_run_transcode_reports_converted :
  exists w',
    convertToM4A (Sample.os true) (js "/d/a.mp3") true false Sample.empty_disk
    = (Ret true, w') /\
    convert_label true = converted /\
    silent subprocess Sample.empty_disk w' /\
    trace w' = [Access (js "/d/a.m4a");
                ConsoleLog (WouldConvert (js "/d/a.mp3") (js "/d/a.m4a"))].
Proof.
  eexists. split; [vm_compute; reflexivity|].
  split; [reflexivity|]. split; reflexivity.
Qed.

(** What the user then sees for a dry run with conversion: nothing is
    fetched or encoded, and the progress bar says converted. *)
Example dry_run_task_shows_converted :
  trace (snd (task (Sample.os true) SampleArgs.with_convert_dry_run
                   (js "/home/downloads") Sample.ep1 Sample.empty_disk))
  = [Access (js "/home/downloads/A_-_Ep1.mp3");
     ConsoleLog (WouldDownload (js "http://x/1.mp3")
                               (js "/home/downloads/A_-_Ep1.mp3"));
     Access (js "/home/downloads/A_-_Ep1.m4a");
     ConsoleLog (WouldConvert (js "/home/downloads/A_-_Ep1.mp3")
                              (js "/home/downloads/A_-_Ep1.m4a"));
     Tick (js "A_-_Ep1.mp3") converted].
Proof. vm_compute. reflexivity. Qed.

(** The transfer next to it returns false in a dry run. *)
Example dry_run_transfer_reports_skipped :
  fst (downloadFile (Sample.os true) (js "http://x/1.mp3") (js "/d/a.mp3")
         false true Sample.empty_disk) = Ret false.
Proof. vm_compute. reflexivity. Qed.

End AgentProps.

(* --------------------------------------------------------------------- *)
(* One task: what it reports                                              *)
(* --------------------------------------------------------------------- *)

Module TaskProps.
Import Node Observe Downloader.

Section Tame.
Context (allowed : event -> bool).

Lemma tame_ret {A} (a : A) : tame allowed (ret a).
Proof.
  intros w. split; [discriminate|]. exists []. simpl.
  rewrite app_nil_r. auto.
Qed.

Lemma tame_throw {A} e : tame allowed (@throw A e).
Proof.
  intros w. split; [discriminate|]. exists []. simpl.
  rewrite app_nil_r. auto.
Qed.

Lemma tame_emit e : allowed e = true -> tame allowed (emit e).
Proof.
  intros He w. split; [discriminate|]. exists [e]. simpl. rewrite He. auto.
Qed.

Lemma tame_get_files : tame allowed get_files.
Proof.
  intros w. split; [discriminate|]. exists []. simpl.
  rewrite app_nil_r. auto.
Qed.

Lemma tame_put_files fs : tame allowed (put_files fs).
Proof.
  intros w. split; [discriminate|]. exists []. simpl.
  rewrite app_nil_r. auto.
Qed.

Lemma tame_bind {A B} (m : M A) (k : A -> M B) :
  tame allowed m -> (forall a, tame allowed (k a)) -> tame allowed (bind m k).
Proof.
  intros Hm Hk w. unfold bind. destruct (Hm w) as [Hx [evs [Ht Hf]]].
  destruct (m w) as [[a|e|c] w1] eqn:Hmw; simpl in *.
  - destruct (Hk a w1) as [Hx' [evs' [Ht' Hf']]]. split; [exact Hx'|].
    exists (evs ++ evs'). rewrite Ht', Ht, forallb_app, Hf, Hf', app_assoc. auto.
  - split; [discriminate|]. exists evs. auto.
  - exfalso. apply (Hx c). reflexivity.
Qed.

Lemma tame_try_catch {A} (m : M A) (h : error -> M A) :
  tame allowed m -> (forall e, tame allowed (h e)) -> tame allowed (try_catch m h).
Proof.
  intros Hm Hh w. unfold try_catch. destruct (Hm w) as [Hx [evs [Ht Hf]]].
  destruct (m w) as [[a|e|c] w1] eqn:Hmw; simpl in *.
  - split; [discriminate|]. exists evs. auto.
  - destruct (Hh e w1) as [Hx' [evs' [Ht' Hf']]]. split; [exact Hx'|].
    exists (evs ++ evs'). rewrite Ht', Ht, forallb_app, Hf, Hf', app_assoc. auto.
  - exfalso. apply (Hx c). reflexivity.
Qed.

Lemma tame_access p : allowed (Access p) = true -> tame allowed (access p).
Proof.
  intros He w. unfold access.
  destruct (files w !! p); (split; [discriminate|]);
    exists [Access p]; simpl; rewrite He; auto.
Qed.

End Tame.

Create HintDb tame.
#[local] Hint Resolve tame_ret tame_throw tame_emit tame_get_files
  tame_put_files tame_access : tame.

(** Take a computation apart along its binds and branches. *)
Ltac tame_steps :=
  repeat first
    [ apply tame_bind; [|intros ?]
    | apply tame_try_catch; [|intros ?]
    | match goal with
      | |- tame _ (if ?b then _ else _) => destruct b
      | |- tame _ (match ?x with _ => _ end) => destruct x
      end
    | solve [eauto with tame] ].

Lemma tame_fileExists allowed path :
  allowed (Access path) = true -> tame allowed (fileExists path).
Proof. intros H. unfold fileExists. tame_steps. Qed.

Lemma tame_downloadFile os url outputPath force dryRun :
  tame inner (downloadFile os url outputPath force dryRun).
Proof.
  unfold downloadFile, fetch, pipeline, console_log.
  tame_steps; apply tame_fileExists; reflexivity.
Qed.

Lemma tame_convertToM4A os inputPath dryRun force :
  tame inner (convertToM4A os inputPath dryRun force).
Proof.
  unfold convertToM4A, execFileSync_ffmpeg, console_log.
  tame_steps; apply tame_fileExists; reflexivity.
Qed.

Lemma count_app f a b : count f (a ++ b) = (count f a + count f b)%nat.
Proof. unfold count. rewrite List.filter_app, length_app. reflexivity. Qed.

Lemma count_inner_progress evs :
  forallb inner evs = true -> count progress_event evs = 0%nat.
Proof.
  unfold count. induction evs as [|e evs IH]; simpl; [reflexivity|].
  intros H. apply andb_true_iff in H. destruct H as [He Hr].
  unfold inner in He. apply andb_true_iff in He. destruct He as [He _].
  apply negb_true_iff in He. rewrite He. apply IH. exact Hr.
Qed.

Lemma count_inner_error evs :
  forallb inner evs = true -> count error_line evs = 0%nat.
Proof.
  unfold count. induction evs as [|e evs IH]; simpl; [reflexivity|].
  intros H. apply andb_true_iff in H. destruct H as [He Hr].
  unfold inner in He. apply andb_true_iff in He. destruct He as [_ He].
  apply negb_true_iff in He. rewrite He. apply IH. exact Hr.
Qed.

(** The try block either ends after exactly one tick, its last event, or
    throws before any tick. *)
Lemma task_try_report os argv dir p w :
  exists evs,
    forallb inner evs = true /\
    ((exists f s w',
        task_try os argv dir p w = (Ret tt, w') /\
        trace w' = trace w ++ evs ++ [Tick f s]) \/
     (exists e w',
        task_try os argv dir p w = (Throw e, w') /\
        trace w' = trace w ++ evs)).
Proof.
  unfold task_try, bind, tick, emit.
  set (out := path_join os dir _). set (name := _ ++ js ".mp3").
  destruct (tame_downloadFile os (downloadLink p) out (force argv) (dry_run argv) w)
    as [Hx [evs1 [Ht1 Hf1]]].
  destruct (downloadFile os (downloadLink p) out (force argv) (dry_run argv) w)
    as [[b|e|c] w1]; simpl in *.
  - destruct (convert argv).
    + destruct (tame_convertToM4A os out (dry_run argv) (force argv) w1)
        as [Hx2 [evs2 [Ht2 Hf2]]].
      destruct (convertToM4A os out (dry_run argv) (force argv) w1)
        as [[b2|e2|c2] w2]; simpl in *.
      * exists (evs1 ++ evs2). rewrite forallb_app, Hf1, Hf2. split; [reflexivity|].
        left. eexists _, _, _. split; [reflexivity|]. simpl.
        rewrite Ht2, Ht1, <- !app_assoc. reflexivity.
      * exists (evs1 ++ evs2). rewrite forallb_app, Hf1, Hf2. split; [reflexivity|].
        right. eexists _, _. split; [reflexivity|].
        rewrite Ht2, Ht1, <- !app_assoc. reflexivity.
      * exfalso. apply (Hx2 c2). reflexivity.
    + exists evs1. split; [exact Hf1|].
      left. eexists _, _, _. split; [reflexivity|]. simpl.
      rewrite Ht1, <- !app_assoc. reflexivity.
  - exists evs1. split; [exact Hf1|]. right. eexists _, _. split; [reflexivity|].
    exact Ht1.
  - exfalso. apply (Hx c). reflexivity.
Qed.

(** A task always settles without rejecting. When its try block ends it
    has ticked once; when the try block throws it has not ticked at all
    and writes one line on the error console instead. *)
Lemma task_report os argv dir p w :
  exists w',
    task os argv dir p w = (Ret tt, w') /\
    ((exists w1, task_try os argv dir p w = (Ret tt, w1)) /\
     count progress_event (since w w') = 1%nat /\
     count error_line (since w w') = 0%nat
     \/
     (exists e w1, task_try os argv dir p w = (Throw e, w1)) /\
     count progress_event (since w w') = 0%nat /\
     count error_line (since w w') = 1%nat).
Proof.
  unfold task, try_catch.
  destruct (task_try_report os argv dir p w) as [evs [Hin [Hok|Hthrow]]].
  - destruct Hok as [f [s [w' [Hrun Htr]]]]. rewrite Hrun.
    exists w'. split; [reflexivity|]. left. split; [eauto|].
    unfold since. rewrite Htr, drop_app_length, !count_app.
    rewrite (count_inner_progress _ Hin), (count_inner_error _ Hin).
    split; reflexivity.
  - destruct Hthrow as [e [w1 [Hrun Htr]]]. rewrite Hrun.
    eexists. split; [reflexivity|]. right. split; [eauto|].
    unfold since. simpl. rewrite Htr, <- app_assoc, drop_app_length, !count_app.
    rewrite (count_inner_progress _ Hin), (count_inner_error _ Hin).
    split; reflexivity.
Qed.

Lemma task_settles os argv dir p w :
  exists w', task os argv dir p w = (Ret tt, w').
Proof.
  destruct (task_report os argv dir p w) as [w' [H _]]. eauto.
Qed.



(** The first episode next to it is fetched and ticks once. *)
Example successful_task_ticks_once :
  trace (snd (task (Sample.os true) SampleArgs.defaults (js "/home/downloads")
                   Sample.ep1 Sample.empty_disk))
  = [Access (js "/home/downloads/A_-_Ep1.mp3");
     Fetch (js "http://x/1.mp3");
     WriteFile (js "/home/downloads/A_-_Ep1.mp3");
     Tick (js "A_-_Ep1.mp3") downloaded].
Proof. vm_compute. reflexivity. Qed.

End TaskProps.

(* --------------------------------------------------------------------- *)
(* The tasks under the limiter                                            *)
(* --------------------------------------------------------------------- *)

Module SchedProps.
Import Node Observe Downloader.

Section Run.
Variable os : env.
Variable argv : Argv.
Variable cap : nat.
Variable dir : jsstring.

Lemma invariant_init ps w : invariant cap ps (init ps w).
Proof. split; simpl; auto. lia. Qed.

Lemma task_names_cases p w :
  (untitled os p = true /\ task_names os dir p w = (Throw TitleTypeError, w)) \/
  (untitled os p = false /\
   task_names os dir p w
   = (Ret (sanitizeFilename (title p) ++ js ".mp3",
           path_join os dir (sanitizeFilename (title p) ++ js ".mp3")), w)).
Proof.
  unfold task_names. destruct (untitled os p); [left|right]; split; reflexivity.
Qed.

Lemma step_admit_inv s s' :
  step os argv cap dir Admit s = Some s' ->
  exists p q, pending s = p :: q /\ (length (active s) < cap)%nat /\
    (untitled os p = false /\
     s' = mkSched q (active s ++ [p]) (settled s) None (st s) \/
     untitled os p = true /\
     s' = reject TitleTypeError q (active s) (settled s ++ [p]) (st s)).
Proof.
  unfold step. destruct (halted s); [discriminate|].
  destruct (pending s) as [|p q]; [discriminate|].
  destruct (length (active s) <? cap)%nat eqn:Hlt; [|discriminate].
  apply Nat.ltb_lt in Hlt.
  destruct (task_names_cases p (st s)) as [[Hu Hn]|[Hu Hn]]; rewrite Hn;
    intros H; injection H as <-; exists p, q; auto.
Qed.

Lemma step_settle_inv i s s' :
  step os argv cap dir (Settle i) s = Some s' ->
  exists p w', active s !! i = Some p /\
               task os argv dir p (st s) = (Ret tt, w') /\
               s' = mkSched (pending s) (delete i (active s)) (settled s ++ [p])
                            None w'.
Proof.
  unfold step. destruct (halted s); [discriminate|].
  destruct (active s !! i) as [p|] eqn:Hp; [|discriminate].
  destruct (TaskProps.task_settles os argv dir p (st s)) as [w' Hw]. rewrite Hw.
  intros H. injection H as <-. eauto.
Qed.

Lemma step_invariant ps c s s' :
  invariant cap ps s -> step os argv cap dir c s = Some s' -> invariant cap ps s'.
Proof.
  intros [Hc Ha Hf] Hstep. destruct c as [|i].
  - apply step_admit_inv in Hstep.
    destruct Hstep as [p [q [Hp [Hlt [[_ ->]|[_ ->]]]]]];
      rewrite Hp in Ha, Hf; split; simpl.
    + rewrite length_app. simpl. lia.
    + rewrite <- Ha, <- !app_assoc. reflexivity.
    + intros H1. rewrite <- (Hf H1), <- !app_assoc. reflexivity.
    + lia.
    + rewrite <- Ha, <- !app_assoc. apply Permutation_app_head. simpl.
      apply Permutation_middle.
    + intros H1. rewrite <- (Hf H1), <- !app_assoc. f_equal.
      subst cap. destruct (active s); simpl in *; [reflexivity|lia].
  - apply step_settle_inv in Hstep. destruct Hstep as [p [w' [Hp [_ ->]]]].
    split; simpl.
    + rewrite length_delete by eauto. lia.
    + rewrite <- Ha, <- app_assoc. apply Permutation_app_head. simpl.
      rewrite (delete_Permutation (active s) i p Hp) at 2. reflexivity.
    + intros H1. rewrite <- (Hf H1), <- app_assoc. f_equal.
      subst cap. destruct (active s) as [|a [|b l]]; simpl in *.
      * discriminate.
      * destruct i; [|discriminate]. injection Hp as ->. reflexivity.
      * lia.
Qed.

Lemma exec_invariant ps schedule s :
  invariant cap ps s -> invariant cap ps (exec os argv cap dir schedule s).
Proof.
  revert s. induction schedule as [|c rest IH]; intros s Hs; simpl; [exact Hs|].
  destruct (step os argv cap dir c s) as [s'|] eqn:Hstep.
  - apply IH. eapply step_invariant; eauto.
  - apply IH. exact Hs.
Qed.

(** After a task has settled its slot is free: if a task is queued, the
    limiter can start it. *)
Lemma slot_reusable ps s i s' :
  invariant cap ps s ->
  step os argv cap dir (Settle i) s = Some s' ->
  pending s' <> [] ->
  is_Some (step os argv cap dir Admit s').
Proof.
  intros [Hc _ _] Hstep Hq.
  apply step_settle_inv in Hstep. destruct Hstep as [p [w' [Hp [_ ->]]]].
  simpl in *. unfold step. simpl.
  destruct (pending s) as [|q r]; [congruence|].
  assert (Hlt : (length (delete i (active s)) < cap)%nat).
  { rewrite length_delete by eauto.
    apply lookup_lt_Some in Hp. lia. }
  apply Nat.ltb_lt in Hlt. rewrite Hlt.
  destruct (task_names os dir q w') as [[?|?|?] ?]; eauto.
Qed.

(** No step halts a run whose queued records all have a string title. *)
Lemma step_typed c s s' :
  Forall (fun p => untitled os p = false) (pending s) ->
  step os argv cap dir c s = Some s' ->
  halted s' = None /\ Forall (fun p => untitled os p = false) (pending s').
Proof.
  intros Ht Hstep. destruct c as [|i].
  - apply step_admit_inv in Hstep.
    destruct Hstep as [p [q [Hp [_ Hs']]]]. rewrite Hp in Ht.
    apply Forall_cons in Ht. destruct Ht as [Hhead Hq].
    destruct Hs' as [[_ ->]|[Hu _]]; [simpl; auto|congruence].
  - apply step_settle_inv in Hstep. destruct Hstep as [p [w' [_ [_ ->]]]].
    simpl. auto.
Qed.

Lemma exec_typed schedule s :
  halted s = None ->
  Forall (fun p => untitled os p = false) (pending s) ->
  halted (exec os argv cap dir schedule s) = None.
Proof.
  revert s. induction schedule as [|c rest IH]; intros s Hh Ht; simpl; [exact Hh|].
  destruct (step os argv cap dir c s) as [s'|] eqn:Hstep; [|apply IH; assumption].
  destruct (step_typed c s s' Ht Hstep) as [Hh' Ht']. apply IH; assumption.
Qed.

(** The process never exits from inside a task. *)
Lemma exec_not_exited schedule s code :
  halted s <> Some (Exited code) ->
  halted (exec os argv cap dir schedule s) <> Some (Exited code).
Proof.
  revert s. induction schedule as [|c rest IH]; intros s Hh; simpl; [exact Hh|].
  destruct (step os argv cap dir c s) as [s'|] eqn:Hstep; [|apply IH; exact Hh].
  apply IH. destruct c as [|i].
  - apply step_admit_inv in Hstep.
    destruct Hstep as [p [q [_ [_ [[_ ->]|[_ ->]]]]]]; simpl; discriminate.
  - apply step_settle_inv in Hstep. destruct Hstep as [p [w' [_ [_ ->]]]].
    simpl. discriminate.
Qed.

(** One task at a time, the sequential schedule settles every queued
    task, in order. *)
Lemma exec_sequential s :
  (1 <= cap)%nat -> halted s = None -> active s = [] ->
  Forall (fun p => untitled os p = false) (pending s) ->
  exists w',
    exec os argv cap dir (sequential (length (pending s))) s
    = mkSched [] [] (settled s ++ pending s) None w'.
Proof.
  intros Hcap. destruct s as [pend act done h w]. simpl.
  revert done w. induction pend as [|p q IH]; intros done w Hh Hact Ht;
    subst; simpl.
  - rewrite app_nil_r. eauto.
  - apply Forall_cons in Ht. destruct Ht as [Hp Hq].
    destruct (TaskProps.task_settles os argv dir p w) as [w' Hw].
    assert (Hadmit : step os argv cap dir Admit (mkSched (p :: q) [] done None w)
                     = Some (mkSched q [p] done None w)).
    { unfold step, task_names. simpl. rewrite Hp.
      destruct cap; [lia|reflexivity]. }
    assert (Hsettle : step os argv cap dir (Settle 0) (mkSched q [p] done None w)
                      = Some (mkSched q [] (done ++ [p]) None w')).
    { unfold step. simpl. rewrite Hw. reflexivity. }
    rewrite Hadmit, Hsettle.
    destruct (IH (done ++ [p]) w' eq_refl eq_refl Hq) as [w'' Hrun].
    rewrite Hrun, <- app_assoc. eauto.
Qed.

End Run.

(** C8: in every state of every run the number of running tasks is at
    most the number of slots; once a task has settled, a queued task can
    start at once; and with one slot the tasks are taken strictly in
    catalog order, so that whenever the second task has started the first
    has settled. *)
Theorem limiter_caps_running_tasks
    (os : env) (argv : Argv) (cap : nat) (dir : jsstring)
    (schedule : list choice) (ps : list Podcast) (w : world) :
  let s := exec os argv cap dir schedule (init ps w) in
  (length (active s) <= cap)%nat /\
  (forall i s',
      step os argv cap dir (Settle i) s = Some s' ->
      pending s' <> [] ->
      is_Some (step os argv cap dir Admit s')) /\
  (cap = 1%nat ->
   settled s ++ active s ++ pending s = ps /\
   forall first second rest,
     ps = first :: second :: rest ->
     (2 <= length (settled s) + length (active s))%nat ->
     exists done, settled s = first :: done).
Proof.
  intros s.
  assert (Hinv : invariant cap ps s)
    by (apply exec_invariant, invariant_init).
  split; [apply Hinv|]. split.
  - intros i s' Hstep Hq. eapply slot_reusable; eauto.
  - intros H1. split; [apply Hinv; exact H1|].
    intros first second rest Hps Hstarted.
    pose proof (inv_cap _ _ _ Hinv) as Hc.
    pose proof (inv_fifo _ _ _ Hinv H1) as Hf.
    destruct (settled s) as [|x done]; simpl in *; [lia|].
    exists done. rewrite Hps in Hf. congruence.
Qed.

(** With one slot and three podcasts: the first task settled, the second
    running, the third still queued, and never two at once. *)
Lemma limiter_one_slot_witness :
  let s := exec (Sample.os true) SampleArgs.defaults 1 (js "/home/downloads")
                [Admit; Admit; Settle 0; Admit; Admit]
                (init [Sample.ep1; Sample.ep2; Sample.ep3] Sample.empty_disk) in
  (length (active s) <= 1)%nat /\
  settled s = [Sample.ep1] /\ active s = [Sample.ep2] /\ pending s = [Sample.ep3] /\
  exists done, settled s = Sample.ep1 :: done.
Proof.
  intros s.
  destruct (limiter_caps_running_tasks (Sample.os true) SampleArgs.defaults 1
              (js "/home/downloads") [Admit; Admit; Settle 0; Admit; Admit]
              [Sample.ep1; Sample.ep2; Sample.ep3] Sample.empty_disk)
    as [Hcap [_ Hone]].
  destruct (Hone eq_refl) as [_ Hfirst].
  split; [exact Hcap|].
  split; [vm_compute; reflexivity|].
  split; [vm_compute; reflexivity|].
  split; [vm_compute; reflexivity|].
  apply (Hfirst Sample.ep1 Sample.ep2 [Sample.ep3] eq_refl).
  vm_compute. lia.
Defined.

End SchedProps.

(* --------------------------------------------------------------------- *)
(* The downloader as a whole                                              *)
(* --------------------------------------------------------------------- *)

Module MainProps.
Import Node Observe Downloader.

Section Run.
Variable os : env.
Variable argv : Argv.

(** When [startup] hands tasks to the limiter there is at least one slot
    and at least one task. *)
Lemma startup_dispatch w ps dir cap w1 :
  startup os argv w = (Ret (Some (ps, dir, cap)), w1) ->
  (1 <= cap)%nat /\ ps <> [] /\ cap = Z.to_nat (parallel argv).
Proof.
  unfold startup, bind, pLimit, ret, throw. intros H.
  repeat (case_match; simplify_eq).
  all: repeat split; try lia.
  all: intros Heq;
    match goal with
    | H : (length _ =? 0)%nat = false |- _ => rewrite Heq in H; discriminate
    end.
Qed.

(** A catalog file that is missing or does not parse ends the downloader
    with exit code 1 before anything else is looked at. *)
Lemma main_parse_failure schedule w content :
  files w !! input argv = Some content ->
  json_parse os content = None ->
  main os argv schedule w
  = (Some 1%Z,
     mkWorld (files w)
             (trace w ++ [ReadFile (input argv); ConsoleError (ErrorMsg SyntaxError)])).
Proof.
  intros Hfile Hparse. unfold main, startup, bind, readFile, JSON_parse.
  rewrite Hfile, Hparse. simpl. rewrite <- app_assoc. reflexivity.
Qed.

(** The encoder is looked for whether or not conversion was asked for:
    without it the downloader exits with code 1 once the catalog is read. *)
Lemma main_without_ffmpeg schedule w content ps :
  files w !! input argv = Some content ->
  json_parse os content = Some ps ->
  ffmpeg_installed os = false ->
  main os argv schedule w
  = (Some 1%Z,
     mkWorld (files w)
             (trace w ++ [ReadFile (input argv); ExecSync (js "ffmpeg -version");
                          ConsoleError FfmpegNotInstalled])).
Proof.
  intros Hfile Hparse Hff.
  unfold main, startup, bind, readFile, JSON_parse, try_catch,
    execSync_ffmpeg_version.
  rewrite Hfile, Hparse. simpl. unfold bind. simpl. rewrite Hff. simpl.
  rewrite <- !app_assoc. reflexivity.
Qed.

End Run.

(** The scraper reads a catalog that does not parse as the empty catalog,
    after one line on the error console. *)
Lemma readExisting_parse_failure os filePath w content :
  files w !! filePath = Some content ->
  json_parse os content = None ->
  Scraper.readExistingPodcasts os filePath w
  = (Ret [],
     mkWorld (files w)
             (trace w ++ [Access filePath; ReadFile filePath;
                          ConsoleError (ErrorReadingExisting SyntaxError)])).
Proof.
  intros Hfile Hparse.
  unfold Scraper.readExistingPodcasts, try_catch, bind, existsSync, readFile,
    JSON_parse.
  unfold jsstring in *.
  rewrite bool_decide_eq_true_2 by (rewrite Hfile; eauto).
  cbn [negb files trace]. rewrite Hfile. cbn [files trace]. rewrite Hparse.
  unfold throw, console_error, emit, ret. cbn [files trace].
  rewrite <- !app_assoc. reflexivity.
Qed.

(** C2, where the code departs from it: conversion is not asked for and
    the encoder is not installed; the catalog parses, and the downloader
    still looks for the encoder and exits with code 1 without fetching
    anything. *)
Theorem encoder_checked_without_convert :
  convert SampleArgs.defaults = false /\
  main (Sample.os false) SampleArgs.defaults (sequential 3)
       (Sample.disk Sample.catalog_text)
  = (Some 1%Z,
     mkWorld (files (Sample.disk Sample.catalog_text))
             [ReadFile (js "podcasts.json"); ExecSync (js "ffmpeg -version");
              ConsoleError FfmpegNotInstalled]).
Proof.
  split; [reflexivity|].
  apply (main_without_ffmpeg (Sample.os false) SampleArgs.defaults (sequential 3)
           (Sample.disk Sample.catalog_text) Sample.catalog_text
           [Sample.ep1; Sample.ep2; Sample.ep3]); vm_compute; reflexivity.
Qed.

(** With the encoder installed the same run looks for it once, before the
    first task, and then fetches. *)
Example encoder_checked_once_before_tasks :
  let t := trace (snd (main (Sample.os true) SampleArgs.defaults (sequential 3)
                            (Sample.disk Sample.catalog_text))) in
  count encoder_check t = 1%nat /\
  take 3 t = [ReadFile (js "podcasts.json"); ExecSync (js "ffmpeg -version");
              Mkdir (js "/home/downloads")].
Proof. vm_compute. split; reflexivity. Qed.

(** C5 fails as stated: the scraper finds a catalog file that does not
    parse, goes on with the empty catalog, and replaces the file with the
    newly scraped records; it does not exit. *)
Lemma scraper_survives_broken_catalog :
  files (Sample.scraper_disk Sample.broken_text) !! js "/home/podcasts.json"
  = Some Sample.broken_text /\
  json_parse (Sample.os true) Sample.broken_text = None /\
  exists w',
    Scraper.main (Sample.os true) (js "podcasts.json")
                 (Sample.scraper_disk Sample.broken_text) = (Ret tt, w') /\
    files w' !! js "/home/podcasts.json"
    = Some (json_stringify (Sample.os true) (scraped (Sample.os true))).
Proof.
  split; [vm_compute; reflexivity|]. split; [vm_compute; reflexivity|].
  eexists. split; vm_compute; reflexivity.
Qed.

(** C5 (as amended): a catalog file that exists and does not parse is
    fatal for the downloader, which exits with code 1 right after reading
    it; the scraper's readExistingPodcasts writes one line on the error
    console and resolves to the empty catalog. *)
Theorem unparsable_catalog_fatal_for_downloader (os : env) (content : jsstring) :
  json_parse os content = None ->
  (forall argv schedule w,
      files w !! input argv = Some content ->
      main os argv schedule w
      = (Some 1%Z,
         mkWorld (files w)
                 (trace w ++ [ReadFile (input argv);
                              ConsoleError (ErrorMsg SyntaxError)]))) /\
  (forall filePath w,
      files w !! filePath = Some content ->
      Scraper.readExistingPodcasts os filePath w
      = (Ret [],
         mkWorld (files w)
                 (trace w ++ [Access filePath; ReadFile filePath;
                              ConsoleError (ErrorReadingExisting SyntaxError)]))).
Proof.
  intros Hparse. split.
  - intros argv schedule w Hfile. eapply main_parse_failure; eauto.
  - intros filePath w Hfile. eapply readExisting_parse_failure; eauto.
Qed.

Lemma unparsable_catalog_witness :
  fst (main (Sample.os true) SampleArgs.defaults (sequential 3)
            (Sample.disk Sample.broken_text)) = Some 1%Z /\
  fst (Scraper.readExistingPodcasts (Sample.os true) (js "/home/podcasts.json")
         (Sample.scraper_disk Sample.broken_text)) = Ret [].
Proof.
  destruct (unparsable_catalog_fatal_for_downloader (Sample.os true)
              Sample.broken_text) as [Hd Hs].
  - vm_compute. reflexivity.
  - split.
    + rewrite (Hd SampleArgs.defaults (sequential 3)
                 (Sample.disk Sample.broken_text)); [reflexivity|].
      vm_compute. reflexivity.
    + rewrite (Hs (js "/home/podcasts.json")
                 (Sample.scraper_disk Sample.broken_text)); [reflexivity|].
      vm_compute. reflexivity.
Defined.

(** C9 (as amended): when every record handed to the limiter has a string
    as its title, as the Podcast interface declares, then whatever the
    event loop does and whichever tasks fail, no failure leaves its task:
    the run is never halted and no task is lost. The downloader ends only
    when every task has settled, and then with exit code 0, after the
    closing line; and taking the tasks one by one does bring it to that
    end. *)
Theorem task_failures_stay_in_their_task
    (os : env) (argv : Argv) (schedule : list choice) (w : world)
    (ps : list Podcast) (dir : jsstring) (cap : nat) (w1 : world) :
  startup os argv w = (Ret (Some (ps, dir, cap)), w1) ->
  Forall (fun p => untitled os p = false) ps ->
  let s := exec os argv cap dir schedule (init ps w1) in
  halted s = None /\
  settled s ++ active s ++ pending s ≡ₚ ps /\
  (forall code w',
      main os argv schedule w = (Some code, w') ->
      code = 0%Z /\ settled s ≡ₚ ps /\
      trace w' = trace (st s) ++ [ConsoleLog DownloadsComplete]) /\
  (exists w', main os argv (sequential (length ps)) w = (Some 0%Z, w')).
Proof.
  intros Hstart Htyped s.
  assert (Hinv : invariant cap ps s)
    by (apply SchedProps.exec_invariant, SchedProps.invariant_init).
  assert (Hh : halted s = None)
    by (apply SchedProps.exec_typed; [reflexivity|exact Htyped]).
  destruct Hinv as [Hc Ha Hf].
  split; [exact Hh|]. split; [exact Ha|]. split.
  - intros code w'. unfold main. rewrite Hstart. fold s. rewrite Hh.
    destruct (pending s) as [|p q] eqn:Hp; [|discriminate].
    destruct (active s) as [|a r] eqn:Hact; [|discriminate].
    intros H. injection H as <- <-. split; [reflexivity|].
    rewrite !app_nil_r in Ha. split; [exact Ha|reflexivity].
  - apply startup_dispatch in Hstart as Hcap. destruct Hcap as [Hcap _].
    unfold main. rewrite Hstart.
    destruct (SchedProps.exec_sequential os argv cap dir (init ps w1) Hcap
                eq_refl eq_refl Htyped) as [wf Hrun].
    simpl in Hrun. rewrite Hrun. simpl. eauto.
Qed.

(** Three podcasts, the second refused by the server: all three tasks
    settle, the failure is one line on the error console, and the exit
    code is 0. *)
Lemma task_failures_witness :
  let w := Sample.disk Sample.catalog_text in
  let w1 := snd (startup (Sample.os true) SampleArgs.defaults w) in
  let s := exec (Sample.os true) SampleArgs.defaults 1 (js "/home/downloads")
                (sequential 3) (init [Sample.ep1; Sample.ep2; Sample.ep3] w1) in
  halted s = None /\
  settled s = [Sample.ep1; Sample.ep2; Sample.ep3] /\
  count error_line (trace (st s)) = 1%nat /\
  exists w', main (Sample.os true) SampleArgs.defaults (sequential 3) w
             = (Some 0%Z, w').
Proof.
  intros w w1 s.
  destruct (task_failures_stay_in_their_task (Sample.os true) SampleArgs.defaults
              (sequential 3) w [Sample.ep1; Sample.ep2; Sample.ep3]
              (js "/home/downloads") 1 w1)
    as [Hh [_ [_ Hend]]].
  - vm_compute. reflexivity.
  - repeat constructor.
  - split; [exact Hh|]. split; [vm_compute; reflexivity|].
    split; [vm_compute; reflexivity|]. exact Hend.
Defined.

(** C9 fails as stated: the catalog parses, but its second record has no
    string as its title. With two slots the first task is in flight when
    the second starts and throws before its try block; its promise
    rejects, the catch of main writes the error, and the process exits
    with code 1 with the first task unfinished and the third never
    started. *)
Lemma untitled_record_aborts_run :
  let w := Sample.disk Sample.catalog_text in
  let w1 := snd (startup Sample2.os_untitled SampleArgs2.two_slots w) in
  let s := exec Sample2.os_untitled SampleArgs2.two_slots 2 (js "/home/downloads")
                [Admit; Admit]
                (init [Sample.ep1; Sample.ep2; Sample.ep3] w1) in
  startup Sample2.os_untitled SampleArgs2.two_slots w
  = (Ret (Some ([Sample.ep1; Sample.ep2; Sample.ep3], js "/home/downloads", 2%nat)),
     w1) /\
  untitled Sample2.os_untitled Sample.ep2 = true /\
  main Sample2.os_untitled SampleArgs2.two_slots [Admit; Admit] w
  = (Some 1%Z, st s) /\
  halted s = Some (Rejected TitleTypeError) /\
  active s = [Sample.ep1] /\
  pending s = [Sample.ep3] /\
  last (trace (st s)) = Some (ConsoleError (ErrorMsg TitleTypeError)).
Proof.
  intros w w1 s. repeat split; vm_compute; reflexivity.
Qed.

End MainProps.

(* --------------------------------------------------------------------- *)
(* Catalog merge: order, keys and composition                             *)
(* --------------------------------------------------------------------- *)

Module MergeMore.
Import Node Scraper MergeProps.

Lemma filter_sublist {A} (f : A -> bool) (l : list A) :
  sublist (List.filter f l) l.
Proof.
  induction l as [|a l IH]; simpl; [constructor|].
  destruct (f a); [apply sublist_skip|apply sublist_cons]; exact IH.
Qed.

(** X1: the existing catalog is kept as it is at the front, and what is
    appended is the incoming list with the records left out whose key the
    existing catalog has: every other incoming record is appended, as
    often as it occurs and in the order of the incoming list. *)
Theorem merge_appends_in_order (E inc : list Podcast) :
  resolves (mergePodcasts E inc)
           (E ++ List.filter (fun p => bool_decide (identifier p ∉ keys E)) inc) /\
  sublist (List.filter (fun p => bool_decide (identifier p ∉ keys E)) inc) inc.
Proof.
  split; [|apply filter_sublist].
  assert (Hsame :
    List.filter (fun p => bool_decide (identifier p ∉ keys E)) inc
    = uniqueNewPodcasts E inc).
  { unfold uniqueNewPodcasts. apply List.filter_ext. intros p.
    rewrite bool_decide_not. f_equal. apply bool_decide_ext.
    rewrite in_existingSet. apply list_elem_of_In. }
  rewrite Hsame. apply mergePodcasts_resolves.
Qed.

Lemma keys_merge (E inc : list Podcast) (k : jsstring) :
  In k (keys (merge E inc)) <-> In k (keys E) \/ In k (keys inc).
Proof.
  rewrite merge_unfold, keys_app, in_app_iff. split.
  - intros [H|H]; [left; exact H|]. right.
    unfold keys in *. apply in_map_iff in H. destruct H as [p [Hk Hp]].
    apply unique_spec in Hp. apply in_map_iff. exists p. tauto.
  - intros [H|H]; [left; exact H|].
    destruct (decide (k ∈ keys E)) as [Hin|Hout];
      rewrite list_elem_of_In in *; [left; exact Hin|]. right.
    unfold keys in *. apply in_map_iff in H. destruct H as [p [Hk Hp]].
    apply in_map_iff. exists p. split; [exact Hk|].
    apply unique_spec. subst k. tauto.
Qed.

(** X2: the keys of the merged catalog are the keys of the existing
    catalog together with the keys of the incoming list: no scraped
    episode goes unrepresented and no key comes from nowhere. *)
Theorem merge_keys_union (E inc : list Podcast) (k : jsstring) :
  In k (keys (merge E inc)) <-> In k (keys E) \/ In k (keys inc).
Proof. apply keys_merge. Qed.

Lemma filter_key_none (k : jsstring) (l : list Podcast) :
  ~ In k (keys l) ->
  List.filter (fun p => bool_decide (identifier p = k)) l = [].
Proof.
  intros H. apply filter_none. intros p Hp.
  apply bool_decide_eq_false_2. intros Heq. apply H.
  unfold keys. apply in_map_iff. exists p. tauto.
Qed.

(** X3: a record already in the catalog is never updated: for a key the
    existing catalog has, the merged catalog holds exactly the records
    the existing catalog held, whatever was scraped for that key. *)
Theorem merge_never_updates (E inc : list Podcast) (k : jsstring) :
  In k (keys E) ->
  List.filter (fun p => bool_decide (identifier p = k)) (merge E inc)
  = List.filter (fun p => bool_decide (identifier p = k)) E.
Proof.
  intros Hk. rewrite merge_unfold, List.filter_app.
  rewrite (filter_none _ (uniqueNewPodcasts E inc)); [apply app_nil_r|].
  intros p Hp. apply unique_spec in Hp. destruct Hp as [_ Hp].
  apply bool_decide_eq_false_2. intros Heq. apply Hp. rewrite Heq. exact Hk.
Qed.

Lemma merge_never_updates_witness :
  List.filter (fun p => bool_decide (identifier p = identifier Sample.ep1))
              (merge [Sample.ep1] [Sample.ep1_rescraped; Sample.ep2])
  = [Sample.ep1].
Proof.
  rewrite (merge_never_updates [Sample.ep1] [Sample.ep1_rescraped; Sample.ep2]
             (identifier Sample.ep1)).
  - vm_compute. reflexivity.
  - simpl. left. reflexivity.
Defined.

(** X4: two merges in a row are one merge of the two lists put together,
    provided a key that both lists carry is already in the catalog. *)
Theorem merge_twice_is_merge_of_both (E N1 N2 : list Podcast) :
  (forall k, In k (keys N1) -> In k (keys N2) -> In k (keys E)) ->
  merge (merge E N1) N2 = merge E (N1 ++ N2).
Proof.
  intros Hdisj.
  assert (Hsame : uniqueNewPodcasts (merge E N1) N2 = uniqueNewPodcasts E N2).
  { unfold uniqueNewPodcasts. apply List.filter_ext_in. intros p Hp.
    f_equal. apply bool_decide_ext. rewrite !in_existingSet.
    rewrite keys_merge. split; [|tauto].
    intros [H|H]; [exact H|]. apply Hdisj; [exact H|].
    unfold keys. apply in_map. exact Hp. }
  rewrite (merge_unfold (merge E N1) N2), Hsame, !merge_unfold.
  unfold uniqueNewPodcasts. rewrite List.filter_app, app_assoc. reflexivity.
Qed.

Lemma merge_twice_witness :
  merge (merge [Sample.ep1] [Sample.ep1_rescraped; Sample.ep2])
        [Sample.ep1; Sample.ep3]
  = merge [Sample.ep1] ([Sample.ep1_rescraped; Sample.ep2] ++ [Sample.ep1; Sample.ep3]).
Proof.
  apply (merge_twice_is_merge_of_both [Sample.ep1]
           [Sample.ep1_rescraped; Sample.ep2] [Sample.ep1; Sample.ep3]).
  intros k H1 H2. simpl in *.
  destruct H1 as [H1|[H1|[]]]; [left; exact H1|].
  destruct H2 as [H2|[H2|[]]]; [left; exact H2|].
  subst k. vm_compute in H2. discriminate.
Defined.

(** X5: the key is the title, a vertical bar and the date put together,
    so a bar inside a title or a date can make two different episodes
    share a key: the second of them is then taken for known and left out. *)
Theorem separator_in_title_collides
    (t d1 d2 link1 link2 text1 text2 : jsstring) :
  let a := mkPodcast (t ++ [124] ++ d1) d2 link1 text1 in
  let b := mkPodcast t (d1 ++ [124] ++ d2) link2 text2 in
  title a <> title b /\
  identifier a = identifier b /\
  merge [a] [b] = [a].
Proof.
  intros a b. split; [|split].
  - simpl. intros H. apply (f_equal length) in H.
    rewrite length_app in H. simpl in H. lia.
  - unfold identifier. simpl. rewrite <- !app_assoc. reflexivity.
  - rewrite merge_unfold. unfold uniqueNewPodcasts. simpl.
    rewrite bool_decide_eq_true_2; [reflexivity|].
    apply in_existingSet. left.
    unfold identifier. simpl. rewrite <- !app_assoc. reflexivity.
Qed.

End MergeMore.

(* --------------------------------------------------------------------- *)
(* The scrapers as a whole                                                *)
(* --------------------------------------------------------------------- *)

Module ScraperMore.
Import Node Observe Scraper MergeProps.

Lemma mergePodcasts_run E inc w :
  exists line,
    mergePodcasts E inc w
    = (Ret (merge E inc), mkWorld (files w) (trace w ++ [ConsoleLog line])).
Proof.
  unfold mergePodcasts, merge, bind, console_log, emit, ret.
  destruct (0 <? length (uniqueNewPodcasts E inc))%nat; eexists; reflexivity.
Qed.

Lemma readExisting_absent os filePath w :
  files w !! filePath = None ->
  readExistingPodcasts os filePath w
  = (Ret [], mkWorld (files w) (trace w ++ [Access filePath])).
Proof.
  intros Hfile. unfold readExistingPodcasts, try_catch, bind, existsSync.
  unfold jsstring in *.
  rewrite bool_decide_eq_false_2 by (rewrite Hfile; apply is_Some_None).
  reflexivity.
Qed.

Lemma readExisting_parsed os filePath w text catalog :
  files w !! filePath = Some text ->
  json_parse os text = Some catalog ->
  readExistingPodcasts os filePath w
  = (Ret catalog,
     mkWorld (files w) (trace w ++ [Access filePath; ReadFile filePath])).
Proof.
  intros Hfile Hparse.
  unfold readExistingPodcasts, try_catch, bind, existsSync, readFile, JSON_parse.
  unfold jsstring in *.
  rewrite bool_decide_eq_true_2 by (rewrite Hfile; eauto).
  cbn [negb files trace]. rewrite Hfile. cbn [files trace]. rewrite Hparse.
  unfold ret. rewrite <- !app_assoc. reflexivity.
Qed.

Lemma readExisting_cases (os : env) (filePath : jsstring) (w : world) :
  exists catalog w',
    readExistingPodcasts os filePath w = (Ret catalog, w') /\
    files w' = files w /\
    match files w !! filePath with
    | None => catalog = [] /\ since w w' = [Access filePath]
    | Some text =>
        match json_parse os text with
        | Some parsed =>
            catalog = parsed /\ count error_line (since w w') = 0%nat
        | None => catalog = [] /\ count error_line (since w w') = 1%nat
        end
    end.
Proof.
  unfold jsstring in *.
  destruct (files w !! filePath) as [text|] eqn:Hfile.
  - destruct (json_parse os text) as [parsed|] eqn:Hparse.
    + eexists _, _. split; [eapply readExisting_parsed; eauto|].
      split; [reflexivity|]. split; [reflexivity|].
      rewrite AgentProps.since_app. reflexivity.
    + eexists _, _. split; [eapply MainProps.readExisting_parse_failure; eauto|].
      split; [reflexivity|]. split; [reflexivity|].
      rewrite AgentProps.since_app. reflexivity.
  - eexists _, _. split; [eapply readExisting_absent; eauto|].
    split; [reflexivity|]. split; [reflexivity|].
    rewrite AgentProps.since_app. reflexivity.
Qed.

(** X6: reading the existing catalog is never fatal and never changes the
    disk. A missing file gives the empty catalog without a word, a file
    that parses gives its records, and a file that does not parse gives
    the empty catalog after one line on the error console. *)
Theorem readExisting_never_fatal (os : env) (filePath : jsstring) (w : world) :
  exists catalog w',
    readExistingPodcasts os filePath w = (Ret catalog, w') /\
    files w' = files w /\
    match files w !! filePath with
    | None => catalog = [] /\ since w w' = [Access filePath]
    | Some text =>
        match json_parse os text with
        | Some parsed =>
            catalog = parsed /\ count error_line (since w w') = 0%nat
        | None => catalog = [] /\ count error_line (since w w') = 1%nat
        end
    end.
Proof. apply readExisting_cases. Qed.

(** The run of the scraper once the existing catalog is read. *)
Lemma main_after_read os output w E w1 :
  readExistingPodcasts os (path_resolve os output) w = (Ret E, w1) ->
  files w1 = files w ->
  exists w',
    main os output w
    = (if writable os (path_resolve os output) then Ret tt else Exit 1%Z, w') /\
    files w'
    = if writable os (path_resolve os output)
      then <[path_resolve os output := json_stringify os (merge E (scraped os))]>
             (files w)
      else files w.
Proof.
  intros Hread Hfiles. unfold main, try_catch, bind. rewrite Hread.
  unfold console_log at 1. unfold emit at 1. unfold scrapePodcasts, ret at 1.
  match goal with
  | |- context [mergePodcasts E (scraped os) ?w2] =>
      destruct (mergePodcasts_run E (scraped os) w2) as [line Hm]; rewrite Hm
  end.
  unfold writeFile. cbn [files trace].
  destruct (writable os (path_resolve os output)).
  - eexists. split; [reflexivity|]. simpl. rewrite Hfiles. reflexivity.
  - eexists. split; [reflexivity|]. simpl. rewrite Hfiles. reflexivity.
Qed.




Lemma first_scraper_run os output w :
  exists w',
    ScraperTs.main os output w
    = (if writable os (path_resolve os output) then Ret tt else Exit 1%Z, w') /\
    files w'
    = if writable os (path_resolve os output)
      then <[path_resolve os output := json_stringify os (scraped os)]> (files w)
      else files w.
Proof.
  unfold ScraperTs.main, ScraperTs.scrapePodcasts, try_catch, bind, ret,
    writeFile.
  destruct (writable os (path_resolve os output));
    eexists; split; reflexivity.
Qed.

(** X10: where there is no catalog file yet, the merging scraper leaves
    the disk exactly as the first scraper does, and ends the same way. *)
Theorem scrapers_agree_without_catalog (os : env) (output : jsstring) (w : world) :
  files w !! path_resolve os output = None ->
  exists r w1 w2,
    main os output w = (r, w1) /\
    ScraperTs.main os output w = (r, w2) /\
    files w1 = files w2.
Proof.
  intros Hfile.
  destruct (main_after_read os output w [] _
              (readExisting_absent os _ w Hfile) eq_refl) as [w1 [Hrun1 Hdisk1]].
  destruct (first_scraper_run os output w) as [w2 [Hrun2 Hdisk2]].
  eexists _, w1, w2. split; [exact Hrun1|]. split; [exact Hrun2|].
  rewrite Hdisk1, Hdisk2, merge_nil_l. reflexivity.
Qed.

Lemma scrapers_agree_witness :
  exists r w1 w2,
    main (Sample.os true) (js "podcasts.json") Sample.empty_disk = (r, w1) /\
    ScraperTs.main (Sample.os true) (js "podcasts.json") Sample.empty_disk
    = (r, w2) /\
    files w1 = files w2.
Proof.
  apply (scrapers_agree_without_catalog (Sample.os true) (js "podcasts.json")
           Sample.empty_disk).
  vm_compute. reflexivity.
Defined.

End ScraperMore.

(* --------------------------------------------------------------------- *)
(* The articles of the page                                               *)
(* --------------------------------------------------------------------- *)

Module ArticleProps.
Import Downloader Articles.

Lemma drop_spaces_keeps s c :
  In c s -> white_space c = false -> In c (drop_spaces s).
Proof.
  induction s as [|x s IH]; simpl; intros Hin Hc; [exact Hin|].
  destruct (white_space x) eqn:Hx.
  - destruct Hin as [->|Hin]; [congruence|]. apply IH; assumption.
  - exact Hin.
Qed.

Lemma drop_spaces_head s c r :
  drop_spaces s = c :: r -> white_space c = false.
Proof.
  induction s as [|x s IH]; simpl; [discriminate|].
  destruct (white_space x) eqn:Hx; [exact IH|].
  intros H. injection H as <- _. exact Hx.
Qed.

Lemma drop_spaces_suffix s : exists pre, s = pre ++ drop_spaces s.
Proof.
  induction s as [|x s [pre IH]]; simpl; [exists []; reflexivity|].
  destruct (white_space x).
  - exists (x :: pre). simpl. f_equal. exact IH.
  - exists []. reflexivity.
Qed.

Lemma trim_keeps s c : In c s -> white_space c = false -> In c (trim s).
Proof.
  intros Hin Hc. unfold trim. apply in_rev. rewrite rev_involutive.
  apply drop_spaces_keeps; [|exact Hc]. apply -> in_rev.
  apply drop_spaces_keeps; assumption.
Qed.

(** The end of a trimmed string is not white space. *)
Lemma trim_last s r c : trim s = r ++ [c] -> white_space c = false.
Proof.
  unfold trim. intros H. apply (f_equal (@rev N)) in H.
  rewrite rev_involutive, rev_app_distr in H. simpl in H.
  eapply drop_spaces_head; eauto.
Qed.

(** Nor is its beginning. *)
Lemma trim_head s c r : trim s = c :: r -> white_space c = false.
Proof.
  unfold trim. intros H.
  destruct (drop_spaces_suffix (rev (drop_spaces s))) as [pre Hpre].
  apply (f_equal (@rev N)) in H. rewrite rev_involutive in H. simpl in H.
  rewrite H in Hpre. apply (f_equal (@rev N)) in Hpre.
  rewrite rev_involutive, rev_app_distr, rev_app_distr, rev_involutive in Hpre.
  simpl in Hpre. eapply drop_spaces_head; eauto.
Qed.

(** The title always holds the dash that joins its two parts. *)
Lemma title_not_empty r t : trim (r ++ js " - " ++ t) <> [].
Proof.
  intros H.
  assert (Hin : In 45 (trim (r ++ js " - " ++ t))).
  { apply trim_keeps; [|reflexivity].
    apply in_or_app. right. simpl. right. left. reflexivity. }
  rewrite H in Hin. exact Hin.
Qed.

Lemma truthy_not_empty s : truthy s = true <-> s <> [].
Proof. destruct s; simpl; split; congruence. Qed.

Section Loop.
Variable toISOString : jsstring -> option jsstring.

Lemma process_pushed a p :
  process toISOString a = Pushed p ->
  title p <> [] /\ releaseDate p <> [] /\ downloadLink p <> [] /\
  (forall c r, title p = c :: r -> white_space c = false) /\
  (forall r c, title p = r ++ [c] -> white_space c = false).
Proof.
  unfold process. intros H.
  repeat (case_match; try discriminate).
  injection H as <-. simpl.
  repeat match goal with
         | H : _ && _ = true |- _ => apply andb_true_iff in H; destruct H
         end.
  repeat split; try (apply truthy_not_empty; assumption).
  - intros c r0. apply trim_head.
  - intros r0 c. apply trim_last.
Qed.

Lemma process_dropped a :
  process toISOString a = Dropped ->
  href a = Some [] \/
  exists dateText, datetime a = Some dateText /\ toISOString dateText = Some [].
Proof.
  unfold process. intros H.
  repeat (case_match; try discriminate); subst. clear H.
  match goal with
  | Hb : _ && _ = false |- _ =>
      apply andb_false_iff in Hb; destruct Hb as [Hb|Hlink];
        [apply andb_false_iff in Hb; destruct Hb as [Htitle|Hdate]|]
  end.
  - exfalso. destruct (trim _) eqn:Ht; [|discriminate].
    eapply title_not_empty. exact Ht.
  - right. eexists. split; [reflexivity|].
    match goal with
    | Hd : toISOString _ = Some ?s |- _ => destruct s; [exact Hd|discriminate]
    end.
  - left.
    match goal with
    | Hl : truthy ?s = false |- _ => destruct s; [reflexivity|discriminate]
    end.
Qed.

(** The records a fate adds to the array. *)
Lemma loop_from acc articles :
  let t := fold_left (fun acc a => record_fate acc (process toISOString a))
                     articles acc in
  podcasts t
  = podcasts acc ++
    flat_map (fun a => match process toISOString a with
                       | Pushed p => [p]
                       | _ => []
                       end) articles /\
  (ticks t + errors t = ticks acc + errors acc + length articles)%nat /\
  (length (podcasts t) + ticks acc <= length (podcasts acc) + ticks t)%nat.
Proof.
  revert acc. induction articles as [|a l IH]; intros [ps tk er]; cbn zeta; simpl.
  - rewrite app_nil_r. split; [reflexivity|]. split; lia.
  - destruct (IH (record_fate (mkTally ps tk er) (process toISOString a)))
      as [Hp [Ht Hl]].
    destruct (process toISOString a) as [p| |]; simpl in *.
    + rewrite length_app in Hl. simpl in *.
      split; [rewrite Hp, <- app_assoc; reflexivity|]. split; lia.
    + split; [exact Hp|]. split; lia.
    + split; [exact Hp|]. split; lia.
Qed.

End Loop.

(** X11: whatever the page holds, every record the loop collects has a
    title, a release date and a download link that are not empty, and its
    title neither starts nor ends with white space. *)
Theorem scraped_records_are_complete
    (toISOString : jsstring -> option jsstring) (articles : list article)
    (p : Podcast) :
  In p (podcasts (scrape_loop toISOString articles)) ->
  title p <> [] /\ releaseDate p <> [] /\ downloadLink p <> [] /\
  (forall c r, title p = c :: r -> white_space c = false) /\
  (forall r c, title p = r ++ [c] -> white_space c = false).
Proof.
  unfold scrape_loop. intros Hin.
  destruct (loop_from toISOString (mkTally [] 0 0) articles) as [Hp _].
  rewrite Hp in Hin. simpl in Hin. apply in_flat_map in Hin.
  destruct Hin as [a [_ Ha]].
  destruct (process toISOString a) as [q| |] eqn:Hq; simpl in Ha; try tauto.
  destruct Ha as [->|[]]. eapply process_pushed; eauto.
Qed.

Lemma scraped_records_witness :
  let page := [mkArticle (Some (js " A")) (Some (js "Ep1 ")) (Some [])
                         (Some (js "2020-01-01")) (Some (js "http://x/1.mp3"))] in
  let p := mkPodcast (js "A - Ep1") (js "2020-01-01T00:00:00.000Z")
                     (js "http://x/1.mp3") [] in
  In p (podcasts (scrape_loop Sample2.iso page)) /\ title p <> [].
Proof.
  intros page p.
  assert (Hin : In p (podcasts (scrape_loop Sample2.iso page)))
    by (vm_compute; left; reflexivity).
  split; [exact Hin|].
  apply (scraped_records_are_complete Sample2.iso page p Hin).
Defined.

(** X12: an article that neither throws nor yields a record lacks its
    download link or its date; the title is never what is missing, as the
    dash between its two parts is always there. *)
Theorem dropped_for_link_or_date_only
    (toISOString : jsstring -> option jsstring) (a : article) :
  process toISOString a = Dropped ->
  href a = Some [] \/
  exists dateText, datetime a = Some dateText /\ toISOString dateText = Some [].
Proof. apply process_dropped. Qed.

Lemma dropped_witness :
  href (mkArticle (Some []) (Some []) (Some []) (Some (js "2020-01-01")) (Some []))
  = Some [] \/
  exists dateText,
    datetime (mkArticle (Some []) (Some []) (Some []) (Some (js "2020-01-01"))
                        (Some [])) = Some dateText /\
    Sample2.iso dateText = Some [].
Proof.
  apply (dropped_for_link_or_date_only Sample2.iso).
  vm_compute. reflexivity.
Defined.

(** X13: every article is accounted for once, by a tick of the progress
    bar or by a logged error; the records collected are those of the
    articles that yield one, in the order of the page, and there are no
    more of them than ticks. *)
Theorem every_article_ticks_or_fails
    (toISOString : jsstring -> option jsstring) (articles : list article) :
  let t := scrape_loop toISOString articles in
  (ticks t + errors t = length articles)%nat /\
  (length (podcasts t) <= ticks t)%nat /\
  podcasts t
  = flat_map (fun a => match process toISOString a with
                       | Pushed p => [p]
                       | _ => []
                       end) articles.
Proof.
  intros t.
  destruct (loop_from toISOString (mkTally [] 0 0) articles) as [Hp [Ht Hl]].
  fold (scrape_loop toISOString articles) in Hp, Ht, Hl. fold t in Hp, Ht, Hl.
  simpl in *. repeat split; [lia|lia|exact Hp].
Qed.

End ArticleProps.

(* --------------------------------------------------------------------- *)
(* File names and the two agents: more                                    *)
(* --------------------------------------------------------------------- *)

Module AgentMore.
Import Node Observe Observe2 Downloader.

Lemma replace_invalid_length s : length (replace_invalid s) = length s.
Proof. unfold replace_invalid. apply length_map. Qed.

Lemma replace_spaces_length b s : (length (replace_spaces b s) <= length s)%nat.
Proof.
  revert b. induction s as [|c s IH]; intros b; simpl; [lia|].
  pose proof (IH true). pose proof (IH false).
  destruct (white_space c); [destruct b|]; simpl; lia.
Qed.

(** X14: a sanitized name holds none of the invalid characters and no
    white space, and is never longer than the title it comes from. *)
Theorem sanitized_name_is_safe (x : jsstring) :
  Forall plain (sanitizeFilename x) /\
  (length (sanitizeFilename x) <= length x)%nat.
Proof.
  split; [apply SanitizeProps.sanitize_plain|].
  unfold sanitizeFilename.
  rewrite <- (replace_invalid_length x). apply replace_spaces_length.
Qed.

(** X15: the output of the transcode has the name of its input with the
    extension mp3 replaced by m4a; an input that does not end in mp3 is
    its own output path. *)
Theorem transcode_output_path (stem path : jsstring) :
  replace_mp3 (stem ++ js ".mp3") = stem ++ js ".m4a" /\
  (ends_with (js ".mp3") path = false -> replace_mp3 path = path).
Proof.
  split.
  - unfold replace_mp3, ends_with.
    rewrite length_app. simpl length.
    replace (length stem + 4 - 4)%nat with (length stem) by lia.
    rewrite drop_app_length, take_app_length.
    rewrite bool_decide_eq_true_2 by reflexivity. reflexivity.
  - intros H. unfold replace_mp3. rewrite H. reflexivity.
Qed.

Lemma transcode_output_path_witness :
  replace_mp3 (js "/d/a" ++ js ".mp3") = js "/d/a" ++ js ".m4a" /\
  replace_mp3 (js "/d/a.ogg") = js "/d/a.ogg".
Proof.
  destruct (transcode_output_path (js "/d/a") (js "/d/a.ogg")) as [H1 H2].
  split; [exact H1|]. apply H2. vm_compute. reflexivity.
Defined.

(** The events before the request: a look at the disk unless forcing. *)
Lemma downloadFile_goes os url outputPath force w :
  force = true \/ files w !! outputPath = None ->
  downloadFile os url outputPath force false w
  = (let w0 := mkWorld (files w)
                 (trace w ++ (if force then [] else [Access outputPath])
                          ++ [Fetch url]) in
     match http os url with
     | None => (Throw (FetchFailed url), w0)
     | Some response =>
         if negb (ok response)
         then (Throw (FailedToDownload url (statusText response)), w0)
         else match resp_body response with
              | None => (Throw (NoResponseBody url), w0)
              | Some b =>
                  let t := trace w0 ++ [WriteFile outputPath] in
                  if writable os outputPath then
                    match breaks_at b with
                    | None => (Ret true, mkWorld (<[outputPath := data b]> (files w)) t)
                    | Some n =>
                        (Throw (StreamFailed outputPath),
                         mkWorld (<[outputPath := take n (data b)]> (files w)) t)
                    end
                  else (Throw (StreamFailed outputPath), mkWorld (files w) t)
              end
     end).
Proof.
  intros Hgo.
  assert (Hpre :
    (if negb force then fileExists outputPath else ret false) w
    = (Ret false,
       mkWorld (files w) (trace w ++ (if force then [] else [Access outputPath])))).
  { destruct force; simpl.
    - rewrite app_nil_r. destruct w; reflexivity.
    - destruct Hgo as [Hgo|Hgo]; [discriminate|].
      apply AgentProps.fileExists_absent. exact Hgo. }
  unfold downloadFile. unfold bind at 1. rewrite Hpre. rewrite andb_false_r.
  unfold fetch, pipeline.
  unfold bind, emit, get_files, put_files, ret, throw.
  cbn [files trace]. rewrite <- !app_assoc.
  destruct (http os url) as [response|]; [|reflexivity].
  destruct (negb (ok response)); [reflexivity|].
  destruct (resp_body response) as [b|]; [|reflexivity].
  cbn [files trace]. rewrite <- !app_assoc.
  destruct (writable os outputPath); [|reflexivity].
  destruct (breaks_at b); cbn [files trace]; reflexivity.
Qed.

(** X16: a transfer that goes ahead (forcing, or nothing at the
    destination) and gets a complete body returns true, puts the body at
    the destination, replacing what was there, and has made one request
    and opened one file; it looks at the disk first only when not forcing.
    A second transfer without force is then skipped without a request. *)
Theorem transfer_writes_body
    (os : env) (url dest : jsstring) (force again : bool) (w : world)
    (r : response) (b : body) :
  force = true \/ files w !! dest = None ->
  http os url = Some r -> ok r = true -> resp_body r = Some b ->
  breaks_at b = None -> writable os dest = true ->
  exists w' w'',
    downloadFile os url dest force false w = (Ret true, w') /\
    files w' = <[dest := data b]> (files w) /\
    since w w' = (if force then [] else [Access dest]) ++ [Fetch url; WriteFile dest] /\
    downloadFile os url dest false again w' = (Ret false, w'') /\
    silent network_call w' w''.
Proof.
  intros Hgo Hhttp Hok Hbody Hwhole Hw.
  rewrite (downloadFile_goes os url dest force w Hgo).
  rewrite Hhttp, Hok, Hbody, Hw, Hwhole. cbn zeta. simpl negb. cbv iota.
  cbn [files trace].
  eexists _, _. split; [reflexivity|]. split; [reflexivity|].
  split; [rewrite <- !app_assoc; apply AgentProps.since_app|].
  split.
  - apply AgentProps.downloadFile_present. simpl.
    unfold jsstring in *. rewrite lookup_insert_eq. eauto.
  - unfold silent. rewrite AgentProps.since_app. reflexivity.
Qed.

Lemma transfer_writes_body_witness :
  exists w' w'',
    downloadFile (Sample.os true) (js "http://x/1.mp3") (js "/d/a.mp3") false false
                 Sample.empty_disk = (Ret true, w') /\
    files w' = <[js "/d/a.mp3" := js "audio"]> (files Sample.empty_disk) /\
    since Sample.empty_disk w'
    = [Access (js "/d/a.mp3")] ++ [Fetch (js "http://x/1.mp3"); WriteFile (js "/d/a.mp3")] /\
    downloadFile (Sample.os true) (js "http://x/1.mp3") (js "/d/a.mp3") false false w'
    = (Ret false, w'') /\
    silent network_call w' w''.
Proof.
  apply (transfer_writes_body (Sample.os true) (js "http://x/1.mp3") (js "/d/a.mp3")
           false false Sample.empty_disk
           (mkResponse true (js "OK") (Some (mkBody (js "audio") None)))
           (mkBody (js "audio") None)).
  - right. vm_compute. reflexivity.
  - vm_compute. reflexivity.
  - reflexivity.
  - reflexivity.
  - reflexivity.
  - reflexivity.
Defined.

(** X17: a transfer whose request is rejected, refused, or answered
    without a body throws, opens no file and leaves the disk as it was. *)
Theorem failed_request_leaves_disk
    (os : env) (url dest : jsstring) (force : bool) (w : world) :
  force = true \/ files w !! dest = None ->
  (http os url = None \/
   exists r, http os url = Some r /\ (ok r = false \/ resp_body r = None)) ->
  exists e w',
    downloadFile os url dest force false w = (Throw e, w') /\
    files w' = files w /\
    silent fs_write w w' /\
    count network_call (since w w') = 1%nat.
Proof.
  intros Hgo Hfail.
  rewrite (downloadFile_goes os url dest force w Hgo). cbn zeta.
  assert (Hquiet : forall fs,
    let w0 := mkWorld fs (trace w ++ (if force then [] else [Access dest])
                                   ++ [Fetch url]) in
    silent fs_write w w0 /\ count network_call (since w w0) = 1%nat).
  { intros fs w0. unfold silent, w0. rewrite AgentProps.since_app.
    destruct force; split; reflexivity. }
  destruct Hfail as [Hnone|[r [Hr Hbad]]].
  - rewrite Hnone. eexists _, _. split; [reflexivity|].
    split; [reflexivity|]. apply Hquiet.
  - rewrite Hr. destruct (ok r) eqn:Hok; simpl negb; cbv iota.
    + destruct Hbad as [Hbad|Hbad]; [discriminate|]. rewrite Hbad.
      eexists _, _. split; [reflexivity|]. split; [reflexivity|]. apply Hquiet.
    + eexists _, _. split; [reflexivity|]. split; [reflexivity|]. apply Hquiet.
Qed.

Lemma failed_request_witness :
  exists e w',
    downloadFile (Sample.os true) (js "http://x/2.mp3") (js "/d/b.mp3") false false
                 Sample.empty_disk = (Throw e, w') /\
    files w' = files Sample.empty_disk /\
    silent fs_write Sample.empty_disk w' /\
    count network_call (since Sample.empty_disk w') = 1%nat.
Proof.
  apply (failed_request_leaves_disk (Sample.os true) (js "http://x/2.mp3")
           (js "/d/b.mp3") false Sample.empty_disk).
  - right. vm_compute. reflexivity.
  - right. eexists. split; [vm_compute; reflexivity|]. left. reflexivity.
Defined.

(** X18: when the stream breaks, the part already written stays at the
    destination, and the next transfer without force takes it for the
    episode: it is skipped without a request and the part stays. *)
Theorem broken_stream_is_skipped_next_time
    (os : env) (url dest : jsstring) (again : bool) (w : world)
    (r : response) (b : body) (n : nat) :
  files w !! dest = None ->
  http os url = Some r -> ok r = true -> resp_body r = Some b ->
  breaks_at b = Some n -> writable os dest = true ->
  exists w' w'',
    downloadFile os url dest false false w = (Throw (StreamFailed dest), w') /\
    files w' !! dest = Some (take n (data b)) /\
    downloadFile os url dest false again w' = (Ret false, w'') /\
    silent network_call w' w'' /\
    files w'' = files w'.
Proof.
  intros Hgo Hhttp Hok Hbody Hbreak Hw.
  rewrite (downloadFile_goes os url dest false w (or_intror Hgo)).
  rewrite Hhttp, Hok, Hbody, Hw, Hbreak. cbn zeta. simpl negb. cbv iota.
  cbn [files trace].
  eexists _, _. split; [reflexivity|].
  split; [simpl; unfold jsstring in *; apply lookup_insert_eq|].
  split.
  - apply AgentProps.downloadFile_present. simpl.
    unfold jsstring in *. rewrite lookup_insert_eq. eauto.
  - split; [|reflexivity]. unfold silent. rewrite AgentProps.since_app. reflexivity.
Qed.

Lemma broken_stream_witness :
  exists w' w'',
    downloadFile Sample2.os_flaky (js "http://x/1.mp3") (js "/d/a.mp3") false false
                 Sample.empty_disk = (Throw (StreamFailed (js "/d/a.mp3")), w') /\
    files w' !! js "/d/a.mp3" = Some (take 2 (js "audio")) /\
    downloadFile Sample2.os_flaky (js "http://x/1.mp3") (js "/d/a.mp3") false false w'
    = (Ret false, w'') /\
    silent network_call w' w'' /\
    files w'' = files w'.
Proof.
  apply (broken_stream_is_skipped_next_time Sample2.os_flaky (js "http://x/1.mp3")
           (js "/d/a.mp3") false Sample.empty_disk
           (mkResponse true (js "OK") (Some (mkBody (js "audio") (Some 2%nat))))
           (mkBody (js "audio") (Some 2%nat)) 2);
    vm_compute; reflexivity.
Defined.

(** The transcode that goes ahead and is not a dry run. *)
Lemma convertToM4A_goes os inputPath force w :
  force = true \/ files w !! replace_mp3 inputPath = None ->
  convertToM4A os inputPath false force w
  = (let args := [js "-i"; inputPath; js "-c:a"; js "aac"; js "-b:a"; js "96k";
                  replace_mp3 inputPath] in
     let t := trace w ++ (if force then [] else [Access (replace_mp3 inputPath)])
                      ++ [ExecFileSync (js "ffmpeg") args] in
     if ffmpeg_installed os then
       (if fst (ffmpeg os (files w) args) then Ret true
        else Throw (ExecFailed (js "ffmpeg")),
        mkWorld (snd (ffmpeg os (files w) args)) t)
     else (Throw (ExecFailed (js "ffmpeg")), mkWorld (files w) t)).
Proof.
  intros Hgo.
  assert (Hpre :
    (if negb force then fileExists (replace_mp3 inputPath) else ret false) w
    = (Ret false,
       mkWorld (files w)
               (trace w ++ (if force then [] else [Access (replace_mp3 inputPath)])))).
  { destruct force; simpl.
    - rewrite app_nil_r. destruct w; reflexivity.
    - destruct Hgo as [Hgo|Hgo]; [discriminate|].
      apply AgentProps.fileExists_absent. exact Hgo. }
  unfold convertToM4A. unfold bind at 1. rewrite Hpre. rewrite andb_false_r.
  unfold execFileSync_ffmpeg.
  unfold bind, emit, get_files, put_files, ret, throw.
  cbn [files trace negb]. cbv zeta. rewrite <- !app_assoc.
  destruct (ffmpeg_installed os); [|reflexivity].
  cbn [files trace].
  destruct (fst (ffmpeg os (files w) _)); reflexivity.
Qed.

(** X19: a transcode that goes ahead runs one subprocess, the encoder with
    the input, the AAC codec, 96k and the output as its arguments. If the
    encoder can be started, the transcode returns true when it exits with
    status zero and throws when it does not, and in both cases the disk
    is what the encoder left; if the encoder cannot be started the
    transcode throws and the disk is as it was. *)
Theorem transcode_runs_encoder_once
    (os : env) (inputPath : jsstring) (force : bool) (w : world) :
  force = true \/ files w !! replace_mp3 inputPath = None ->
  exists r w',
    convertToM4A os inputPath false force w = (r, w') /\
    List.filter subprocess (since w w')
    = [ExecFileSync (js "ffmpeg")
         [js "-i"; inputPath; js "-c:a"; js "aac"; js "-b:a"; js "96k";
          replace_mp3 inputPath]] /\
    if ffmpeg_installed os then
      files w'
      = snd (ffmpeg os (files w)
               [js "-i"; inputPath; js "-c:a"; js "aac"; js "-b:a"; js "96k";
                replace_mp3 inputPath]) /\
      r = if fst (ffmpeg os (files w)
                    [js "-i"; inputPath; js "-c:a"; js "aac"; js "-b:a"; js "96k";
                     replace_mp3 inputPath])
          then Ret true else Throw (ExecFailed (js "ffmpeg"))
    else r = Throw (ExecFailed (js "ffmpeg")) /\ files w' = files w.
Proof.
  intros Hgo. rewrite (convertToM4A_goes os inputPath force w Hgo).
  cbv zeta.
  destruct (ffmpeg_installed os);
    (eexists _, _; split; [reflexivity|]; split; [|split; reflexivity]);
    cbn [trace]; rewrite AgentProps.since_app; destruct force; reflexivity.
Qed.

Lemma transcode_runs_encoder_witness :
  let w := mkWorld {[ js "/d/a.mp3" := js "audio" ]} [] in
  exists r w',
    convertToM4A (Sample.os true) (js "/d/a.mp3") false false w = (r, w') /\
    r = Ret true /\
    files w' !! js "/d/a.m4a" = Some (js "audio").
Proof.
  intros w.
  destruct (transcode_runs_encoder_once (Sample.os true) (js "/d/a.mp3") false w)
    as [r [w' [Hrun [_ Hres]]]].
  - right. vm_compute. reflexivity.
  - exists r, w'. split; [exact Hrun|].
    change (ffmpeg_installed (Sample.os true)) with true in Hres.
    cbv iota in Hres. destruct Hres as [Hf Hr].
    split; [rewrite Hr; vm_compute; reflexivity|].
    rewrite Hf. vm_compute. reflexivity.
Defined.

(** A failing encoder leaves its traces: without an input the sample
    encoder fails, the transcode throws, and the empty output it began
    stays on disk. *)
Example failed_encoder_leaves_output :
  let w' := snd (convertToM4A (Sample.os true) (js "/d/a.mp3") false false
                   Sample.empty_disk) in
  fst (convertToM4A (Sample.os true) (js "/d/a.mp3") false false Sample.empty_disk)
  = Throw (ExecFailed (js "ffmpeg")) /\
  files w' !! js "/d/a.m4a" = Some [].
Proof. vm_compute. split; reflexivity. Qed.

End AgentMore.

(* --------------------------------------------------------------------- *)
(* One task: more                                                         *)
(* --------------------------------------------------------------------- *)

Module TaskMore.
Import Node Observe Observe2 Downloader.

#[local] Hint Resolve TaskProps.tame_ret TaskProps.tame_throw TaskProps.tame_emit
  TaskProps.tame_get_files TaskProps.tame_put_files TaskProps.tame_access : tame.

Lemma forallb_negb_existsb {A} (f : A -> bool) l :
  forallb (fun x => negb (f x)) l = true -> existsb f l = false.
Proof.
  induction l as [|a l IH]; simpl; [reflexivity|].
  intros H. apply andb_true_iff in H. destruct H as [Ha Hl].
  apply negb_true_iff in Ha. rewrite Ha. apply IH. exact Hl.
Qed.

(** The transfer never starts a subprocess. *)
Lemma downloadFile_no_subprocess os url outputPath force dryRun :
  tame (fun e => negb (subprocess e)) (downloadFile os url outputPath force dryRun).
Proof.
  unfold downloadFile, fetch, pipeline, console_log.
  TaskProps.tame_steps; apply TaskProps.tame_fileExists; reflexivity.
Qed.

Section Task.
Variable os : env.
Variable argv : Argv.
Variable dir : jsstring.
Variable p : Podcast.

Lemma task_transfer_throws w e w1 :
  downloadFile os (downloadLink p)
    (path_join os dir (sanitizeFilename (title p) ++ js ".mp3"))
    (force argv) (dry_run argv) w = (Throw e, w1) ->
  task os argv dir p w
  = (Ret tt, mkWorld (files w1)
               (trace w1 ++ [ConsoleError (FailedToDownloadTitle (title p) e)])).
Proof.
  intros H. unfold task, try_catch, task_try, bind. rewrite H. reflexivity.
Qed.

Lemma task_without_convert w b w1 :
  convert argv = false ->
  downloadFile os (downloadLink p)
    (path_join os dir (sanitizeFilename (title p) ++ js ".mp3"))
    (force argv) (dry_run argv) w = (Ret b, w1) ->
  task os argv dir p w
  = (Ret tt, mkWorld (files w1)
               (trace w1 ++ [Tick (sanitizeFilename (title p) ++ js ".mp3")
                               (download_label b)])).
Proof.
  intros Hc H. unfold task, try_catch, task_try, bind. rewrite H, Hc. reflexivity.
Qed.

Lemma task_with_convert w b w1 b2 w2 :
  convert argv = true ->
  downloadFile os (downloadLink p)
    (path_join os dir (sanitizeFilename (title p) ++ js ".mp3"))
    (force argv) (dry_run argv) w = (Ret b, w1) ->
  convertToM4A os (path_join os dir (sanitizeFilename (title p) ++ js ".mp3"))
    (dry_run argv) (force argv) w1 = (Ret b2, w2) ->
  task os argv dir p w
  = (Ret tt, mkWorld (files w2)
               (trace w2 ++ [Tick (sanitizeFilename (title p) ++ js ".mp3")
                               (convert_label b2)])).
Proof.
  intros Hc H H2. unfold task, try_catch, task_try, bind.
  rewrite H, Hc. unfold bind. rewrite H2. reflexivity.
Qed.

End Task.

(** X20: when the transfer of a task throws, the transcode is not tried:
    the task ends with the disk as the transfer left it, one line on the
    error console that names the title and the error, no subprocess and
    no progress event. *)
Theorem failed_transfer_skips_transcode
    (os : env) (argv : Argv) (dir : jsstring) (p : Podcast)
    (w : world) (e : error) (w1 : world) :
  downloadFile os (downloadLink p)
    (path_join os dir (sanitizeFilename (title p) ++ js ".mp3"))
    (force argv) (dry_run argv) w = (Throw e, w1) ->
  exists w',
    task os argv dir p w = (Ret tt, w') /\
    files w' = files w1 /\
    trace w' = trace w1 ++ [ConsoleError (FailedToDownloadTitle (title p) e)] /\
    silent subprocess w w' /\
    count progress_event (since w w') = 0%nat.
Proof.
  intros H. rewrite (task_transfer_throws os argv dir p w e w1 H).
  eexists. split; [reflexivity|]. split; [reflexivity|]. split; [reflexivity|].
  destruct (downloadFile_no_subprocess os (downloadLink p)
              (path_join os dir (sanitizeFilename (title p) ++ js ".mp3"))
              (force argv) (dry_run argv) w) as [_ [evs [Ht Hf]]].
  destruct (TaskProps.tame_downloadFile os (downloadLink p)
              (path_join os dir (sanitizeFilename (title p) ++ js ".mp3"))
              (force argv) (dry_run argv) w) as [_ [evs' [Ht' Hf']]].
  rewrite H in Ht, Ht'. simpl in Ht, Ht'.
  split.
  - unfold silent, since. simpl. rewrite Ht, <- app_assoc, drop_app_length.
    rewrite existsb_app, (forallb_negb_existsb _ _ Hf). reflexivity.
  - unfold since. simpl. rewrite Ht', <- app_assoc, drop_app_length.
    rewrite TaskProps.count_app, (TaskProps.count_inner_progress _ Hf').
    reflexivity.
Qed.

Lemma failed_transfer_witness :
  exists w',
    task (Sample.os true) SampleArgs2.with_convert (js "/home/downloads") Sample.ep2
         Sample.empty_disk = (Ret tt, w') /\
    silent subprocess Sample.empty_disk w' /\
    count progress_event (since Sample.empty_disk w') = 0%nat.
Proof.
  destruct (failed_transfer_skips_transcode (Sample.os true) SampleArgs2.with_convert
              (js "/home/downloads") Sample.ep2 Sample.empty_disk
              (FailedToDownload (js "http://x/2.mp3") (js "Not Found"))
              (snd (downloadFile (Sample.os true) (js "http://x/2.mp3")
                      (js "/home/downloads/B_-_Ep2.mp3") false false
                      Sample.empty_disk)))
    as [w' [Hrun [_ [_ [Hs Hc]]]]].
  - vm_compute. reflexivity.
  - exists w'. auto.
Defined.

(** X21: with conversion on, the label of the tick is that of the
    transcode alone: an episode fetched anew, whose converted file is
    already there, is fetched and written and then shown as skipped. *)
Theorem fresh_download_shown_as_skipped
    (os : env) (argv : Argv) (dir : jsstring) (p : Podcast) (w : world)
    (r : response) (b : body) :
  convert argv = true -> force argv = false -> dry_run argv = false ->
  files w !! path_join os dir (sanitizeFilename (title p) ++ js ".mp3") = None ->
  is_Some (files w !! replace_mp3
             (path_join os dir (sanitizeFilename (title p) ++ js ".mp3"))) ->
  http os (downloadLink p) = Some r -> ok r = true -> resp_body r = Some b ->
  breaks_at b = None ->
  writable os (path_join os dir (sanitizeFilename (title p) ++ js ".mp3")) = true ->
  exists w',
    task os argv dir p w = (Ret tt, w') /\
    files w' !! path_join os dir (sanitizeFilename (title p) ++ js ".mp3")
    = Some (data b) /\
    since w w'
    = [Access (path_join os dir (sanitizeFilename (title p) ++ js ".mp3"));
       Fetch (downloadLink p);
       WriteFile (path_join os dir (sanitizeFilename (title p) ++ js ".mp3"));
       Access (replace_mp3
                 (path_join os dir (sanitizeFilename (title p) ++ js ".mp3")));
       Tick (sanitizeFilename (title p) ++ js ".mp3") skipped].
Proof.
  intros Hc Hf Hd Hnone Hsome Hhttp Hok Hbody Hwhole Hw.
  set (out := path_join os dir (sanitizeFilename (title p) ++ js ".mp3")) in *.
  assert (Hdl :
    downloadFile os (downloadLink p) out (force argv) (dry_run argv) w
    = (Ret true,
       mkWorld (<[out := data b]> (files w))
               (trace w ++ [Access out; Fetch (downloadLink p); WriteFile out]))).
  { rewrite Hf, Hd.
    rewrite (AgentMore.downloadFile_goes os (downloadLink p) out false w
               (or_intror Hnone)).
    rewrite Hhttp, Hok, Hbody, Hw, Hwhole. cbn zeta. simpl negb. cbv iota.
    cbn [files trace]. rewrite <- !app_assoc. reflexivity. }
  assert (Hcv :
    convertToM4A os out (dry_run argv) (force argv)
      (mkWorld (<[out := data b]> (files w))
               (trace w ++ [Access out; Fetch (downloadLink p); WriteFile out]))
    = (Ret false,
       mkWorld (<[out := data b]> (files w))
               ((trace w ++ [Access out; Fetch (downloadLink p); WriteFile out])
                ++ [Access (replace_mp3 out)]))).
  { rewrite Hf, Hd. apply AgentProps.convertToM4A_present. simpl.
    unfold jsstring in *.
    destruct (decide (out = replace_mp3 out)) as [Heq|Hne].
    - rewrite <- Heq, lookup_insert_eq. eauto.
    - rewrite lookup_insert_ne by exact Hne. exact Hsome. }
  rewrite (task_with_convert os argv dir p w _ _ _ _ Hc Hdl Hcv).
  eexists. split; [reflexivity|].
  split; [simpl; unfold jsstring in *; apply lookup_insert_eq|].
  simpl trace. rewrite <- !app_assoc. apply AgentProps.since_app.
Qed.

Lemma fresh_download_witness :
  let w := mkWorld {[ js "/home/downloads/A_-_Ep1.m4a" := js "aac" ]} [] in
  exists w',
    task (Sample.os true) SampleArgs2.with_convert (js "/home/downloads") Sample.ep1 w
    = (Ret tt, w') /\
    last (trace w') = Some (Tick (js "A_-_Ep1.mp3") skipped) /\
    count network_call (trace w') = 1%nat.
Proof.
  intros w.
  destruct (fresh_download_shown_as_skipped (Sample.os true) SampleArgs2.with_convert
              (js "/home/downloads") Sample.ep1 w
              (mkResponse true (js "OK") (Some (mkBody (js "audio") None)))
              (mkBody (js "audio") None))
    as [w' [Hrun [_ Hsince]]]; try reflexivity.
  - vm_compute. eauto.
  - exists w'. split; [exact Hrun|].
    unfold since in Hsince. simpl in Hsince. rewrite drop_0 in Hsince.
    rewrite Hsince. split; vm_compute; reflexivity.
Defined.

(** X22: two episodes whose titles sanitize to the same name share one
    file: once the first is fetched, the task of the second finds the
    file, makes no request and ticks as skipped, so the audio of the
    second is never stored. *)
Theorem same_name_second_is_skipped
    (os : env) (argv : Argv) (dir : jsstring) (p1 p2 : Podcast) (w : world)
    (r : response) (b : body) :
  sanitizeFilename (title p1) = sanitizeFilename (title p2) ->
  convert argv = false -> force argv = false -> dry_run argv = false ->
  files w !! path_join os dir (sanitizeFilename (title p1) ++ js ".mp3") = None ->
  http os (downloadLink p1) = Some r -> ok r = true -> resp_body r = Some b ->
  breaks_at b = None ->
  writable os (path_join os dir (sanitizeFilename (title p1) ++ js ".mp3")) = true ->
  exists w1 w2,
    task os argv dir p1 w = (Ret tt, w1) /\
    task os argv dir p2 w1 = (Ret tt, w2) /\
    since w1 w2
    = [Access (path_join os dir (sanitizeFilename (title p1) ++ js ".mp3"));
       Tick (sanitizeFilename (title p1) ++ js ".mp3") skipped] /\
    files w2 !! path_join os dir (sanitizeFilename (title p1) ++ js ".mp3")
    = Some (data b).
Proof.
  intros Hsame Hc Hf Hd Hnone Hhttp Hok Hbody Hwhole Hw.
  set (out := path_join os dir (sanitizeFilename (title p1) ++ js ".mp3")) in *.
  assert (Hdl :
    downloadFile os (downloadLink p1) out (force argv) (dry_run argv) w
    = (Ret true,
       mkWorld (<[out := data b]> (files w))
               (trace w ++ [Access out; Fetch (downloadLink p1); WriteFile out]))).
  { rewrite Hf, Hd.
    rewrite (AgentMore.downloadFile_goes os (downloadLink p1) out false w
               (or_intror Hnone)).
    rewrite Hhttp, Hok, Hbody, Hw, Hwhole. cbn zeta. simpl negb. cbv iota.
    cbn [files trace]. rewrite <- !app_assoc. reflexivity. }
  set (w1 := mkWorld (<[out := data b]> (files w))
               ((trace w ++ [Access out; Fetch (downloadLink p1); WriteFile out])
                ++ [Tick (sanitizeFilename (title p1) ++ js ".mp3")
                      (download_label true)])).
  assert (Hrun1 : task os argv dir p1 w = (Ret tt, w1))
    by (rewrite (task_without_convert os argv dir p1 w _ _ Hc Hdl); reflexivity).
  assert (Hdl2 :
    downloadFile os (downloadLink p2)
      (path_join os dir (sanitizeFilename (title p2) ++ js ".mp3"))
      (force argv) (dry_run argv) w1
    = (Ret false, mkWorld (files w1) (trace w1 ++ [Access out]))).
  { rewrite Hf, <- Hsame. fold out. apply AgentProps.downloadFile_present.
    simpl. unfold jsstring in *. rewrite lookup_insert_eq. eauto. }
  exists w1. eexists. split; [exact Hrun1|].
  split; [rewrite (task_without_convert os argv dir p2 w1 _ _ Hc Hdl2);
          reflexivity|].
  rewrite <- Hsame. split.
  - cbn [files trace download_label]. rewrite <- (app_assoc (trace w1)).
    apply AgentProps.since_app.
  - simpl. unfold jsstring in *. apply lookup_insert_eq.
Qed.

Lemma same_name_witness :
  exists w1 w2,
    task (Sample.os true) SampleArgs.defaults (js "/home/downloads") Sample2.slash
         Sample.empty_disk = (Ret tt, w1) /\
    task (Sample.os true) SampleArgs.defaults (js "/home/downloads") Sample2.query w1
    = (Ret tt, w2) /\
    since w1 w2
    = [Access (js "/home/downloads/A-B.mp3"); Tick (js "A-B.mp3") skipped] /\
    files w2 !! js "/home/downloads/A-B.mp3" = Some (js "audio").
Proof.
  apply (same_name_second_is_skipped (Sample.os true) SampleArgs.defaults
           (js "/home/downloads") Sample2.slash Sample2.query Sample.empty_disk
           (mkResponse true (js "OK") (Some (mkBody (js "audio") None)))
           (mkBody (js "audio") None));
    vm_compute; reflexivity.
Defined.

End TaskMore.

(* --------------------------------------------------------------------- *)
(* Whole runs of the downloader: more                                     *)
(* --------------------------------------------------------------------- *)

Module RunMore.
Import Node Observe Observe2 Downloader.

Section Inert.
Context (allowed : event -> bool).

Lemma inert_ret {A} (a : A) : inert allowed (ret a).
Proof.
  intros w. split; [reflexivity|]. exists []. simpl. rewrite app_nil_r. auto.
Qed.

Lemma inert_throw {A} e : inert allowed (@throw A e).
Proof.
  intros w. split; [reflexivity|]. exists []. simpl. rewrite app_nil_r. auto.
Qed.

Lemma inert_exit {A} code : inert allowed (@process_exit A code).
Proof.
  intros w. split; [reflexivity|]. exists []. simpl. rewrite app_nil_r. auto.
Qed.

Lemma inert_get_files : inert allowed get_files.
Proof.
  intros w. split; [reflexivity|]. exists []. simpl. rewrite app_nil_r. auto.
Qed.

Lemma inert_emit e : allowed e = true -> inert allowed (emit e).
Proof.
  intros He w. split; [reflexivity|]. exists [e]. simpl. rewrite He. auto.
Qed.

Lemma inert_access p : allowed (Access p) = true -> inert allowed (access p).
Proof.
  intros He w. unfold access.
  destruct (files w !! p); (split; [reflexivity|]);
    exists [Access p]; simpl; rewrite He; auto.
Qed.

Lemma inert_readFile p : allowed (ReadFile p) = true -> inert allowed (readFile p).
Proof.
  intros He w. unfold readFile.
  destruct (files w !! p); (split; [reflexivity|]);
    exists [ReadFile p]; simpl; rewrite He; auto.
Qed.

Lemma inert_mkdir os p : allowed (Mkdir p) = true -> inert allowed (mkdir os p).
Proof.
  intros He w. unfold mkdir.
  destruct (writable os p); (split; [reflexivity|]);
    exists [Mkdir p]; simpl; rewrite He; auto.
Qed.

Lemma inert_bind {A B} (m : M A) (k : A -> M B) :
  inert allowed m -> (forall a, inert allowed (k a)) -> inert allowed (bind m k).
Proof.
  intros Hm Hk w. unfold bind. destruct (Hm w) as [Hfs [evs [Ht Hf]]].
  destruct (m w) as [[a|e|c] w1] eqn:Hmw; simpl in *.
  - destruct (Hk a w1) as [Hfs' [evs' [Ht' Hf']]]. split; [congruence|].
    exists (evs ++ evs'). rewrite Ht', Ht, forallb_app, Hf, Hf', app_assoc. auto.
  - split; [exact Hfs|]. exists evs. auto.
  - split; [exact Hfs|]. exists evs. auto.
Qed.

Lemma inert_try_catch {A} (m : M A) (h : error -> M A) :
  inert allowed m -> (forall e, inert allowed (h e)) -> inert allowed (try_catch m h).
Proof.
  intros Hm Hh w. unfold try_catch. destruct (Hm w) as [Hfs [evs [Ht Hf]]].
  destruct (m w) as [[a|e|c] w1] eqn:Hmw; simpl in *.
  - split; [exact Hfs|]. exists evs. auto.
  - destruct (Hh e w1) as [Hfs' [evs' [Ht' Hf']]]. split; [congruence|].
    exists (evs ++ evs'). rewrite Ht', Ht, forallb_app, Hf, Hf', app_assoc. auto.
  - split; [exact Hfs|]. exists evs. auto.
Qed.

End Inert.

Create HintDb inert.
#[local] Hint Resolve inert_ret inert_throw inert_exit inert_get_files inert_emit
  inert_access inert_readFile inert_mkdir : inert.

(** Take a computation apart along its binds and branches. *)
Ltac inert_steps :=
  repeat first
    [ apply inert_bind; [|intros ?]
    | apply inert_try_catch; [|intros ?]
    | match goal with
      | |- inert _ (if ?b then _ else _) => destruct b
      | |- inert _ (match ?x with _ => _ end) => destruct x
      end
    | solve [eauto with inert] ].

Section DryRun.
Variable os : env.
Variable argv : Argv.
Hypothesis dry : dry_run argv = true.

Lemma inert_startup : inert harmless (startup os argv).
Proof.
  unfold startup, JSON_parse, execSync_ffmpeg_version, pLimit, console_log,
    console_error.
  inert_steps.
Qed.

Lemma inert_task dir p : inert harmless (task os argv dir p).
Proof.
  unfold task, task_try, downloadFile, convertToM4A, fileExists, tick,
    console_log, console_error.
  rewrite dry. inert_steps.
Qed.

Lemma inert_step cap dir c s s' :
  step os argv cap dir c s = Some s' ->
  files (st s') = files (st s) /\
  exists evs, trace (st s') = trace (st s) ++ evs /\ forallb harmless evs = true.
Proof.
  intros Hstep. destruct c as [|i].
  - apply SchedProps.step_admit_inv in Hstep.
    destruct Hstep as [p [q [_ [_ [[_ ->]|[_ ->]]]]]]; simpl.
    + split; [reflexivity|]. exists []. rewrite app_nil_r. auto.
    + split; [reflexivity|]. eexists. split; reflexivity.
  - apply SchedProps.step_settle_inv in Hstep.
    destruct Hstep as [p [w' [_ [Hrun ->]]]]. simpl.
    destruct (inert_task dir p (st s)) as [Hfs Hev]. rewrite Hrun in Hfs, Hev.
    auto.
Qed.

Lemma inert_exec cap dir schedule s :
  files (st (exec os argv cap dir schedule s)) = files (st s) /\
  exists evs,
    trace (st (exec os argv cap dir schedule s)) = trace (st s) ++ evs /\
    forallb harmless evs = true.
Proof.
  revert s. induction schedule as [|c rest IH]; intros s; simpl.
  - split; [reflexivity|]. exists []. rewrite app_nil_r. auto.
  - destruct (step os argv cap dir c s) as [s'|] eqn:Hstep; [|apply IH].
    destruct (inert_step cap dir c s s' Hstep) as [Hfs [evs [Ht Hf]]].
    destruct (IH s') as [Hfs' [evs' [Ht' Hf']]].
    split; [congruence|]. exists (evs ++ evs').
    rewrite Ht', Ht, forallb_app, Hf, Hf', app_assoc. auto.
Qed.

Lemma inert_main schedule w :
  files (snd (main os argv schedule w)) = files w /\
  exists evs,
    trace (snd (main os argv schedule w)) = trace w ++ evs /\
    forallb harmless evs = true.
Proof.
  unfold main. destruct (inert_startup w) as [Hfs [evs [Ht Hf]]].
  destruct (startup os argv w) as [[[[[ps dir] cap]|]|e|code] w1]; simpl in *.
  - destruct (inert_exec cap dir schedule (init ps w1)) as [Hfs' [evs' [Ht' Hf']]].
    simpl in Hfs', Ht'.
    assert (Hall : forallb harmless (evs ++ evs') = true)
      by (rewrite forallb_app, Hf, Hf'; reflexivity).
    destruct (halted _) as [[e|code]|]; [| |destruct (pending _); [destruct (active _)|]];
      simpl; (split; [congruence|]).
    + exists (evs ++ evs'). rewrite Ht', Ht, app_assoc. auto.
    + exists (evs ++ evs'). rewrite Ht', Ht, app_assoc. auto.
    + exists ((evs ++ evs') ++ [ConsoleLog DownloadsComplete]).
      rewrite Ht', Ht, forallb_app, Hall, !app_assoc. auto.
    + exists (evs ++ evs'). rewrite Ht', Ht, app_assoc. auto.
    + exists (evs ++ evs'). rewrite Ht', Ht, app_assoc. auto.
  - split; [exact Hfs|]. exists evs. auto.
  - split; [exact Hfs|]. exists (evs ++ [ConsoleError (ErrorMsg e)]).
    rewrite Ht, forallb_app, Hf, app_assoc. auto.
  - split; [exact Hfs|]. exists evs. auto.
Qed.

End DryRun.

Lemma harmless_silent evs :
  forallb harmless evs = true ->
  existsb network_call evs = false /\
  existsb file_write evs = false /\
  existsb encoder_run evs = false.
Proof.
  induction evs as [|e evs IH]; simpl; [auto|].
  intros H. apply andb_true_iff in H. destruct H as [He Hr].
  destruct (IH Hr) as [H1 [H2 H3]]. rewrite H1, H2, H3.
  unfold harmless in He. destruct e; simpl in *; auto; discriminate.
Qed.

(** X23: a dry run of the downloader, whatever the catalog, the other
    flags and the order of the tasks, makes no request, opens no file for
    writing, never runs the encoder, and leaves every file as it was (it
    does look for the encoder and make sure the download directory
    exists). *)
Theorem dry_run_changes_nothing
    (os : env) (argv : Argv) (schedule : list choice) (w : world) :
  dry_run argv = true ->
  files (snd (main os argv schedule w)) = files w /\
  silent network_call w (snd (main os argv schedule w)) /\
  silent file_write w (snd (main os argv schedule w)) /\
  silent encoder_run w (snd (main os argv schedule w)).
Proof.
  intros Hdry.
  destruct (inert_main os argv Hdry schedule w) as [Hfs [evs [Ht Hf]]].
  split; [exact Hfs|]. unfold silent, since. rewrite Ht, drop_app_length.
  apply harmless_silent. exact Hf.
Qed.

Lemma dry_run_witness :
  let w := Sample.disk Sample.catalog_text in
  let w' := snd (main (Sample.os true) SampleArgs2.dry_run_only
                      [Admit; Admit; Settle 1; Settle 0; Admit; Settle 0] w) in
  fst (main (Sample.os true) SampleArgs2.dry_run_only
            [Admit; Admit; Settle 1; Settle 0; Admit; Settle 0] w) = Some 0%Z /\
  files w' = files w /\
  silent network_call w w' /\ silent file_write w w' /\ silent encoder_run w w'.
Proof.
  intros w w'. split; [vm_compute; reflexivity|].
  apply (dry_run_changes_nothing (Sample.os true) SampleArgs2.dry_run_only
           [Admit; Admit; Settle 1; Settle 0; Admit; Settle 0] w).
  reflexivity.
Defined.

#[local] Hint Resolve TaskProps.tame_ret TaskProps.tame_throw TaskProps.tame_emit
  TaskProps.tame_get_files TaskProps.tame_put_files TaskProps.tame_access : tame.

(** What one task adds to the trace. *)
Lemma task_adds_one_report os argv dir p w :
  exists w' evs,
    task os argv dir p w = (Ret tt, w') /\
    trace w' = trace w ++ evs /\
    (count progress_event evs + count error_line evs = 1)%nat /\
    count encoder_check evs = 0%nat.
Proof.
  assert (Hinner : forall evs, forallb inner evs = true ->
            count progress_event evs = 0%nat /\ count error_line evs = 0%nat)
    by (intros evs H; split;
        [apply TaskProps.count_inner_progress|apply TaskProps.count_inner_error];
        exact H).
  assert (Hcheck : tame (fun e => negb (encoder_check e)) (task os argv dir p)).
  { unfold task, task_try, downloadFile, convertToM4A, fileExists, fetch, pipeline,
      execFileSync_ffmpeg, tick, console_log, console_error.
    TaskProps.tame_steps. }
  destruct (Hcheck w) as [_ [evs0 [Ht0 Hf0]]].
  unfold task, try_catch in *.
  destruct (TaskProps.task_try_report os argv dir p w) as [evs [Hin [Hok|Hthrow]]].
  - destruct Hok as [f [s [w' [Hrun Htr]]]]. rewrite Hrun in *.
    exists w', (evs ++ [Tick f s]). split; [reflexivity|]. split; [exact Htr|].
    destruct (Hinner evs Hin) as [Hp He].
    split; [rewrite !TaskProps.count_app, Hp, He; reflexivity|].
    simpl in Ht0. rewrite Htr in Ht0. apply app_inv_head in Ht0. rewrite Ht0.
    clear - Hf0. induction evs0 as [|e l IH]; simpl in *; [reflexivity|].
    apply andb_true_iff in Hf0. destruct Hf0 as [He Hl].
    apply negb_true_iff in He. unfold count in *. simpl. rewrite He. auto.
  - destruct Hthrow as [e [w1 [Hrun Htr]]]. rewrite Hrun in *.
    eexists _, (evs ++ [ConsoleError (FailedToDownloadTitle (title p) e)]).
    split; [reflexivity|]. split; [simpl; rewrite Htr, app_assoc; reflexivity|].
    destruct (Hinner evs Hin) as [Hp He].
    split; [rewrite !TaskProps.count_app, Hp, He; reflexivity|].
    simpl in Ht0. rewrite Htr, <- app_assoc in Ht0. apply app_inv_head in Ht0.
    rewrite Ht0.
    clear - Hf0. induction evs0 as [|e0 l IH]; simpl in *; [reflexivity|].
    apply andb_true_iff in Hf0. destruct Hf0 as [He Hl].
    apply negb_true_iff in He. unfold count in *. simpl. rewrite He. auto.
Qed.

Lemma exec_reports os argv cap dir schedule s :
  exists evs,
    trace (st (exec os argv cap dir schedule s)) = trace (st s) ++ evs /\
    (count progress_event evs + count error_line evs + length (settled s)
     = length (settled (exec os argv cap dir schedule s)))%nat /\
    count encoder_check evs = 0%nat.
Proof.
  revert s. induction schedule as [|c rest IH]; intros s; simpl.
  - exists []. rewrite app_nil_r. auto.
  - destruct (step os argv cap dir c s) as [s'|] eqn:Hstep; [|apply IH].
    destruct (IH s') as [evs' [Ht' [Hc' Hk']]].
    destruct c as [|i].
    + apply SchedProps.step_admit_inv in Hstep.
      destruct Hstep as [p [q [_ [_ [[_ ->]|[_ ->]]]]]]; simpl in *; [eauto|].
      exists (ConsoleError (ErrorMsg TitleTypeError) :: evs').
      rewrite Ht', <- app_assoc. split; [reflexivity|].
      rewrite length_app in Hc'. simpl in Hc'.
      change (ConsoleError (ErrorMsg TitleTypeError) :: evs')
        with ([ConsoleError (ErrorMsg TitleTypeError)] ++ evs').
      rewrite !TaskProps.count_app, Hk'. unfold count at 1 3 5. simpl.
      split; [lia|reflexivity].
    + apply SchedProps.step_settle_inv in Hstep.
      destruct Hstep as [p [w' [_ [Hrun ->]]]]. simpl in *.
      destruct (task_adds_one_report os argv dir p (st s))
        as [w'' [evs [Hrun' [Ht [Hc Hk]]]]].
      rewrite Hrun in Hrun'. injection Hrun' as <-.
      exists (evs ++ evs'). rewrite Ht', Ht, app_assoc.
      split; [reflexivity|]. rewrite !TaskProps.count_app, Hk, Hk'.
      rewrite length_app in Hc'. simpl in Hc'. split; [lia|reflexivity].
Qed.


Lemma tame_mkdir allowed os p :
  allowed (Mkdir p) = true -> tame allowed (mkdir os p).
Proof.
  intros He w. unfold mkdir.
  destruct (writable os p); (split; [discriminate|]);
    exists [Mkdir p]; simpl; rewrite He; auto.
Qed.

Lemma count_none f evs :
  forallb (fun e => negb (f e)) evs = true -> count f evs = 0%nat.
Proof.
  unfold count. induction evs as [|e l IH]; simpl; [reflexivity|].
  intros H. apply andb_true_iff in H. destruct H as [He Hl].
  apply negb_true_iff in He. rewrite He. auto.
Qed.

(** [startup] reads, parses and looks for the encoder; what follows
    never looks for it again and never ends the process. *)
Lemma startup_shape os argv :
  exists rest,
    (forall parsed, tame (fun e => negb (encoder_check e)) (rest parsed)) /\
    (forall w,
        startup os argv w
        = bind (readFile (input argv))
            (fun jsonContent =>
               bind (JSON_parse os jsonContent)
                 (fun parsed =>
                    bind (try_catch (execSync_ffmpeg_version os)
                            (fun _ => bind (console_error FfmpegNotInstalled)
                                        (fun _ => process_exit 1%Z)))
                      (fun _ => rest parsed))) w).
Proof.
  eexists. split; cycle 1.
  - intros w. unfold startup. reflexivity.
  - intros parsed. cbv beta. unfold pLimit, console_log.
    TaskProps.tame_steps. apply tame_mkdir. reflexivity.
Qed.

(** The events of [startup], and how often the encoder is looked for. *)
Lemma startup_checks os argv w :
  exists evs,
    trace (snd (startup os argv w)) = trace w ++ evs /\
    count encoder_check evs
    = match files w !! input argv with
      | Some text => match json_parse os text with Some _ => 1 | None => 0 end
      | None => 0
      end%nat /\
    forall ps dir cap w1,
      startup os argv w = (Ret (Some (ps, dir, cap)), w1) ->
      ffmpeg_installed os = true.
Proof.
  destruct (startup_shape os argv) as [rest [Hrest Heq]]. rewrite Heq.
  unfold execSync_ffmpeg_version, console_error.
  unfold bind, try_catch, readFile, JSON_parse, emit, process_exit, ret, throw.
  destruct (files w !! input argv) as [text|] eqn:Hfile; cbn [files trace];
    [destruct (json_parse os text) as [parsed|] eqn:Hparse; cbn [files trace]|].
  - destruct (ffmpeg_installed os); cbn [files trace].
    + match goal with
      | |- context [rest parsed ?w2] =>
          destruct (Hrest parsed w2) as [_ [evs [Ht Hf]]];
          destruct (rest parsed w2) as [r w3]
      end.
      simpl in Ht. exists ([ReadFile (input argv); ExecSync (js "ffmpeg -version")] ++ evs).
      split; [simpl; rewrite Ht, <- !app_assoc; reflexivity|].
      split; [|intros; reflexivity].
      rewrite TaskProps.count_app, (count_none _ _ Hf). reflexivity.
    + eexists. split; [simpl; rewrite <- !app_assoc; reflexivity|].
      split; [reflexivity|]. intros; discriminate.
  - eexists. split; [reflexivity|]. split; [reflexivity|]. intros; discriminate.
  - eexists. split; [reflexivity|]. split; [reflexivity|]. intros; discriminate.
Qed.

(** X25: in every run the encoder is looked for exactly once if the
    catalog file is there and parses, and not at all otherwise; no task
    ever looks for it again. *)
Theorem encoder_looked_for_once
    (os : env) (argv : Argv) (schedule : list choice) (w : world) :
  count encoder_check (since w (snd (main os argv schedule w)))
  = match files w !! input argv with
    | Some text => match json_parse os text with Some _ => 1 | None => 0 end
    | None => 0
    end%nat.
Proof.
  destruct (startup_checks os argv w) as [evs [Ht [Hc _]]].
  match goal with |- _ = ?rhs => set (n := rhs) in * end.
  unfold main, since.
  destruct (startup os argv w) as [[[[[ps dir] cap]|]|e|code] w1]; simpl in *.
  - destruct (exec_reports os argv cap dir schedule (init ps w1))
      as [evs' [Ht' [_ Hk']]]. simpl in Ht'.
    destruct (halted _) as [[e|code]|]; [| |destruct (pending _); [destruct (active _)|]];
      simpl; rewrite Ht', Ht, <- ?app_assoc, drop_app_length,
        ?TaskProps.count_app, Hk', Hc; unfold count; simpl; lia.
  - rewrite Ht, drop_app_length. exact Hc.
  - rewrite Ht, <- app_assoc, drop_app_length, TaskProps.count_app, Hc.
    unfold count. simpl. lia.
  - rewrite Ht, drop_app_length. exact Hc.
Qed.

(** X26: tasks are created only after the encoder was found: in no task
    can the encoder be missing. *)
Theorem tasks_only_with_encoder
    (os : env) (argv : Argv) (w : world)
    (ps : list Podcast) (dir : jsstring) (cap : nat) (w1 : world) :
  startup os argv w = (Ret (Some (ps, dir, cap)), w1) ->
  ffmpeg_installed os = true.
Proof.
  destruct (startup_checks os argv w) as [evs [_ [_ H]]]. apply H.
Qed.

Lemma tasks_only_with_encoder_witness : ffmpeg_installed (Sample.os true) = true.
Proof.
  apply (tasks_only_with_encoder (Sample.os true) SampleArgs.defaults
           (Sample.disk Sample.catalog_text)
           [Sample.ep1; Sample.ep2; Sample.ep3] (js "/home/downloads") 1
           (snd (startup (Sample.os true) SampleArgs.defaults
                   (Sample.disk Sample.catalog_text)))).
  vm_compute. reflexivity.
Defined.

(** X27: without its catalog file the downloader stops at once: it exits
    with code 1 after the failed read, having looked for nothing else and
    changed nothing. *)
Theorem missing_catalog_stops_downloader
    (os : env) (argv : Argv) (schedule : list choice) (w : world) :
  files w !! input argv = None ->
  main os argv schedule w
  = (Some 1%Z,
     mkWorld (files w)
             (trace w ++ [ReadFile (input argv);
                          ConsoleError (ErrorMsg (ENOENT (input argv)))])).
Proof.
  intros Hfile. unfold main, startup, bind, readFile. unfold jsstring in *.
  rewrite Hfile. simpl.
  rewrite <- app_assoc. reflexivity.
Qed.

Lemma missing_catalog_witness :
  fst (main (Sample.os true) SampleArgs.defaults (sequential 3) Sample.empty_disk)
  = Some 1%Z.
Proof.
  rewrite (missing_catalog_stops_downloader (Sample.os true) SampleArgs.defaults
             (sequential 3) Sample.empty_disk); [reflexivity|].
  vm_compute. reflexivity.
Defined.



(** An empty filter pattern is no filter: the run is the same, event for
    event, as the run without the flag. *)
Example empty_filter_is_no_filter
    (os : env) (input dir : jsstring) (parallel : Z) (force dry convert : bool)
    (schedule : list choice) (w : world) :
  main os (mkArgv input dir (Some []) parallel force dry convert) schedule w
  = main os (mkArgv input dir None parallel force dry convert) schedule w.
Proof. reflexivity. Qed.

Lemma startup_exit_code os argv w code w1 :
  startup os argv w = (Exit code, w1) -> code = 1%Z.
Proof.
  destruct (startup_shape os argv) as [rest [Hrest Heq]]. rewrite Heq.
  unfold execSync_ffmpeg_version, console_error.
  unfold bind, try_catch, readFile, JSON_parse, emit, process_exit, ret, throw.
  destruct (files w !! input argv) as [text|]; cbn [files trace];
    [destruct (json_parse os text) as [parsed|]; cbn [files trace]|];
    try discriminate.
  destruct (ffmpeg_installed os); cbn [files trace].
  - match goal with
    | |- context [rest parsed ?w2] =>
        destruct (Hrest parsed w2) as [Hx _];
        destruct (rest parsed w2) as [[a|e|c] w3]
    end; try discriminate.
    exfalso. apply (Hx c). reflexivity.
  - intros H. injection H as <- _. reflexivity.
Qed.

(** X29: the downloader never ends with an exit code other than 0 or 1. *)
Theorem exit_code_is_zero_or_one
    (os : env) (argv : Argv) (schedule : list choice) (w : world) (code : Z) :
  fst (main os argv schedule w) = Some code -> code = 0%Z \/ code = 1%Z.
Proof.
  unfold main.
  destruct (startup os argv w) as [[[[[ps dir] cap]|]|e|c] w1] eqn:Hstart; simpl.
  - destruct (halted _) as [[e|c]|] eqn:Hh.
    + intros H. injection H as <-. right. reflexivity.
    + exfalso.
      apply (SchedProps.exec_not_exited os argv cap dir schedule (init ps w1) c);
        [discriminate|exact Hh].
    + destruct (pending _); [destruct (active _)|]; simpl; intros H;
        try discriminate. injection H as <-. left. reflexivity.
  - intros H. injection H as <-. left. reflexivity.
  - intros H. injection H as <-. right. reflexivity.
  - intros H. injection H as <-. right.
    eapply startup_exit_code. exact Hstart.
Qed.

Lemma exit_code_witness : (1 = 0 \/ 1 = 1)%Z.
Proof.
  apply (exit_code_is_zero_or_one (Sample.os false) SampleArgs.defaults
           (sequential 3) (Sample.disk Sample.catalog_text) 1%Z).
  vm_compute. reflexivity.
Defined.

End RunMore.
